(** * GeoJSON worker source: a shallow embedding and its properties

    The development follows [src/source/geojson_worker_source.js]: the
    class [GeoJSONWorkerSource] (ingest, removal, tile reload, point-list
    planning) and the class [TravellingSalesmanApproximation] (the tour
    heuristic), together with the other revision of [getPointListData] in
    the repository, which cuts an expansion in the middle of a cluster.

    Numbers.  Identifiers, counters and array indices are integers.
    Coordinates and distances are JavaScript numbers; they are modelled by
    exact rationals extended with the special values the code can produce
    ([0/0] is [NaN] in [normalizePoints] as soon as all points share an
    abscissa or an ordinate).  Rounding and signed zeros are not modelled;
    [Math.pow(x, 2)] is the exact square.  [Math.sqrt], [Math.cos] and
    [Math.asin] are parameters of the development. *)

From Stdlib Require Import QArith Qround Lqa.
From stdpp Require Import gmap strings list fin_maps sorting.

Local Open Scope Z_scope.

(* ===================================================================== *)
(** * Part I: definitions *)
(* ===================================================================== *)

(** ** JavaScript numbers *)

Module Num.

Inductive num : Type :=
| Fin (q : Q)
| PInf
| NInf
| NaN.

Definition Qltb (a b : Q) : bool := negb (Qle_bool b a).

(** The sign of a rational: [Lt], [Eq] or [Gt] against zero. *)
Definition Qsign (a : Q) : comparison := (0 ?= a)%Q.

Definition neg (a : num) : num :=
  match a with
  | Fin q => Fin (- q)
  | PInf => NInf
  | NInf => PInf
  | NaN => NaN
  end.

Definition add (a b : num) : num :=
  match a, b with
  | NaN, _ | _, NaN => NaN
  | Fin x, Fin y => Fin (x + y)
  | PInf, NInf | NInf, PInf => NaN
  | PInf, _ | _, PInf => PInf
  | NInf, _ | _, NInf => NInf
  end.

Definition sub (a b : num) : num := add a (neg b).

(** [inf_signed c] is the infinity of the sign [c] ([0 * Infinity] is
    [NaN]). *)
Definition inf_signed (c : comparison) : num :=
  match c with
  | Lt => PInf
  | Gt => NInf
  | Eq => NaN
  end.

Definition mul (a b : num) : num :=
  match a, b with
  | NaN, _ | _, NaN => NaN
  | Fin x, Fin y => Fin (x * y)
  | Fin x, PInf | PInf, Fin x => inf_signed (Qsign x)
  | Fin x, NInf | NInf, Fin x => neg (inf_signed (Qsign x))
  | PInf, PInf | NInf, NInf => PInf
  | PInf, NInf | NInf, PInf => NInf
  end.

Definition div (a b : num) : num :=
  match a, b with
  | NaN, _ | _, NaN => NaN
  | Fin x, Fin y =>
      if Qeq_bool y 0 then inf_signed (Qsign x) else Fin (x / y)
  | Fin _, (PInf | NInf) => Fin 0
  | (PInf | NInf), (PInf | NInf) => NaN
  | PInf, Fin y => if Qltb y 0 then NInf else PInf
  | NInf, Fin y => if Qltb y 0 then PInf else NInf
  end.

(** [a < b]; false as soon as one side is [NaN]. *)
Definition ltb (a b : num) : bool :=
  match a, b with
  | NaN, _ | _, NaN => false
  | Fin x, Fin y => Qltb x y
  | NInf, (Fin _ | PInf) => true
  | Fin _, PInf => true
  | _, _ => false
  end.

Definition gtb (a b : num) : bool := ltb b a.

(** The library functions that have no rational counterpart:
    [Math.sqrt] on the non-negative rationals, [Math.cos], and
    [Math.asin] on the interval from [-1] to [1]. *)
Class MathLib := {
  Math_sqrt : Q -> Q;
  Math_cos : Q -> Q;
  Math_asin : Q -> Q
}.

Definition sqrt {M : MathLib} (a : num) : num :=
  match a with
  | Fin x => if Qltb x 0 then NaN else Fin (Math_sqrt x)
  | PInf => PInf
  | NInf | NaN => NaN
  end.

Definition asin {M : MathLib} (a : num) : num :=
  match a with
  | Fin x => if Qltb x (-1) || Qltb 1 x then NaN else Fin (Math_asin x)
  | _ => NaN
  end.

End Num.

Import Num.

(** [l[i]] for an array of indices, read where the loops of the source
    keep [i] below [l.length]. *)
Definition at_index (l : list nat) (i : nat) : nat := default 0%nat (l !! i).

(** ** [TravellingSalesmanApproximation] *)

Module TSA.

Definition point : Type := Q * Q.
Definition npoint : Type := num * num.

(** [this.bounds]: each field is [null] until the first point is seen. *)
Record Bounds := mkBounds {
  minX : option Q;
  minY : option Q;
  maxX : option Q;
  maxY : option Q
}.

Definition bounds0 : Bounds := mkBounds None None None None.

(** [polygonX > this.bounds.maxX || this.bounds.maxX === null] *)
Definition raise (b : option Q) (v : Q) : option Q :=
  match b with
  | None => Some v
  | Some m => if Qltb m v then Some v else Some m
  end.

(** [polygonX < this.bounds.minX || this.bounds.minX === null] *)
Definition lower (b : option Q) (v : Q) : option Q :=
  match b with
  | None => Some v
  | Some m => if Qltb v m then Some v else Some m
  end.

Definition grow (b : Bounds) (p : point) : Bounds :=
  mkBounds (lower (minX b) (fst p)) (lower (minY b) (snd p))
           (raise (maxX b) (fst p)) (raise (maxY b) (snd p)).

(** [null] is the number [0] in an arithmetic expression. *)
Definition numeric (b : option Q) : Q := default 0%Q b.

Record t := mkTSA {
  bounds : Bounds;
  height : Q;
  width : Q;
  points : list npoint;
  center : npoint;
  distanceMatrix : list (list num);
  randomPath : list nat
}.

(** The scaling applied to one coordinate by [normalizePoints] and by the
    constructor: [(v - min) * extent / (max - min)]. *)
Definition scale (v lo hi extent : Q) : num :=
  div (Fin ((v - lo) * extent)) (Fin (hi - lo)).

Definition normalizePoints (pts : list point) : Bounds * Q * Q * list npoint :=
  let b := fold_left grow pts bounds0 in
  let h := (numeric (maxY b) - numeric (minY b))%Q in
  let w := (numeric (maxX b) - numeric (minX b))%Q in
  let pts' :=
    map (fun p : point =>
           (scale (fst p) (numeric (minX b)) (numeric (maxX b)) w,
            scale (snd p) (numeric (minY b)) (numeric (maxY b)) h)) pts in
  (b, h, w, pts').

Section WithMath.
Context {M : MathLib}.

(** [Math.sqrt((pi.x - pj.x) * (pi.x - pj.x) + (pi.y - pj.y) * (pi.y - pj.y))] *)
Definition euclid (pi pj : npoint) : num :=
  sqrt (add (mul (sub (fst pi) (fst pj)) (sub (fst pi) (fst pj)))
            (mul (sub (snd pi) (snd pj)) (sub (snd pi) (snd pj)))).

(** Entry [(a, b)] of the matrix: computed once for [i <= j] and copied
    to [(j, i)]. *)
Definition entry (pts : list npoint) (a b : nat) : num :=
  let i := Nat.min a b in
  let j := Nat.max a b in
  match pts !! i, pts !! j with
  | Some pi, Some pj => euclid pi pj
  | _, _ => NaN
  end.

Definition generateDistanceMatrix (pts : list npoint) : list (list num) :=
  let n := length pts in
  map (fun a => map (fun b => entry pts a b) (seq 0 n)) (seq 0 n).

Definition generateRandomPath (pts : list npoint) : list nat :=
  seq 0 (length pts).

(** [new TravellingSalesmanApproximation(points, center)] *)
Definition create (pts : list point) (c : option point) : t :=
  let '(b, h, w, pts') := normalizePoints pts in
  let c' :=
    match c with
    | None => (Fin (w / 2), Fin (h / 2))
    | Some c =>
        (scale (fst c) (numeric (minX b)) (numeric (maxX b)) w,
         scale (snd c) (numeric (minY b)) (numeric (maxY b)) h)
    end in
  mkTSA b h w pts' c' (generateDistanceMatrix pts') (generateRandomPath pts').

End WithMath.

(** [this.distanceMatrix[a][b]] *)
Definition dist (s : t) (a b : nat) : num :=
  default NaN (row ← distanceMatrix s !! a; row !! b).

(** [this.height * this.height + this.width * this.width + 1] *)
Definition ceiling (s : t) : num :=
  Fin (height s * height s + width s * width s + 1).

Definition detour (s : t) (before insert after : nat) : num :=
  sub (add (dist s before insert) (dist s insert after)) (dist s before after).

Definition swap (path : list nat) (i j : nat) : list nat :=
  let temp := at_index path i in
  <[j := temp]> (<[i := at_index path j]> path).

(** The body of the first loop over [k]. *)
Definition closer (s : t) (candidate : nat) (m : num) (p : nat) : num :=
  let currentDistance := dist s p candidate in
  if ltb currentDistance m then currentDistance else m.

(** The first loop over [k]: [minimalDistance] for a candidate. *)
Definition minimalDistance (s : t) (path : list nat) (candidate : nat) : num :=
  fold_left (closer s candidate) path (ceiling s).

(** The body of the loop over [j], on the pair
    [(maximalDistanceToTour, indexInRemaining)]. *)
Definition consider (s : t) (path remaining : list nat) (acc : num * nat) (j : nat)
  : num * nat :=
  let m := minimalDistance s path (at_index remaining j) in
  if gtb m (fst acc) then (m, j) else acc.

(** The loop over [j]. *)
Definition farthest (s : t) (path remaining : list nat) (i : nat) : num * nat :=
  fold_left (consider s path remaining)
    (seq i (length (points s) - i)) (Fin (-1), 0%nat).

(** The body of the second loop over [k], on the pair
    [(smallestDetour, indexInPath)]. *)
Definition tryGap (s : t) (path : list nat) (x : nat) (acc : num * nat) (k : nat)
  : num * nat :=
  let currentDetour := detour s (at_index path k) x (at_index path (k + 1)) in
  if ltb currentDetour (fst acc) then (currentDetour, k) else acc.

(** The second loop over [k]. *)
Definition cheapest (s : t) (path : list nat) (x : nat) : num * nat :=
  fold_left (tryGap s path x) (seq 0 (length path - 1)) (ceiling s, 0%nat).

(** [path.splice(pos, 0, x)] *)
Definition splice (path : list nat) (pos : nat) (x : nat) : list nat :=
  take pos path ++ x :: drop pos path.

(** One iteration of the outer loop of [solve], on [(remaining, path)]. *)
Definition step (s : t) (st : list nat * list nat) (i : nat) : list nat * list nat :=
  let '(remaining, path) := st in
  let indexInRemaining := snd (farthest s path remaining i) in
  let remaining := swap remaining indexInRemaining i in
  let x := at_index remaining i in
  let '(smallestDetour, indexInPath) := cheapest s path x in
  if ltb (detour s (at_index path (length path - 1)) x (at_index path 0)) smallestDetour
  then (remaining, splice path (length path) x)
  else (remaining, splice path (indexInPath + 1) x).

(** The path built by the outer loop, from the seed [first]. *)
Definition tour (s : t) (first : nat) : list nat :=
  snd (fold_left (step s) (seq 1 (length (points s) - 1)) (randomPath s, [first])).

(** [solve()]: an array holding the one path.  With no point at all the
    seed [remaining[0]] is [undefined] and the loop does not run. *)
Definition solve (s : t) : list (list (option nat)) :=
  match randomPath s with
  | [] => [[None]]
  | first :: _ => [Some <$> tour s first]
  end.

End TSA.

(** ** GeoJSON documents *)

Definition position : Type := Q * Q.
Definition ring : Type := list position.

Inductive Geometry : Type :=
| Point (p : position)
| MultiPoint (ps : list position)
| LineString (ps : list position)
| MultiLineString (ls : list (list position))
| Polygon (rings : list ring)
| MultiPolygon (polygons : list (list ring)).

Record GeoFeature := mkGeoFeature {
  geometry : Geometry;
  feature_id : option Z;
  feature_properties : list (string * string)
}.

Inductive GeoJSON : Type :=
| FeatureCollection (features : list GeoFeature)
| SingleFeature (f : GeoFeature)
| BareGeometry (g : Geometry).

(** [data.features] *)
Definition features_of (d : GeoJSON) : option (list GeoFeature) :=
  match d with
  | FeatureCollection fs => Some fs
  | _ => None
  end.

(** What [JSON.parse] or the network hands back. *)
Inductive JSValue : Type :=
| VNull
| VBool (b : bool)
| VNumber (q : Q)
| VString (s : string)
| VObject (doc : GeoJSON).

(** [!data] *)
Definition falsy (v : JSValue) : bool :=
  match v with
  | VNull => true
  | VBool b => negb b
  | VNumber q => Qeq_bool q 0
  | VString s => if decide (s = EmptyString) then true else false
  | VObject _ => false
  end.

(** [typeof data === 'object'], for a value that is not falsy. *)
Definition as_object (v : JSValue) : option GeoJSON :=
  match v with
  | VObject d => Some d
  | _ => None
  end.

(** ** Geometry normalisation *)

Module Rewind.

Definition cross (p q : position) : Q :=
  (fst p * snd q - fst q * snd p)%Q.

(** The shoelace sum along the consecutive positions of an open chain. *)
Fixpoint chain (l : list position) : Q :=
  match l with
  | p :: (q :: _) as tl => (cross p q + chain tl)%Q
  | _ => 0%Q
  end.

Definition first_position (l : list position) : position :=
  default (0%Q, 0%Q) (head l).

Definition last_position (l : list position) : position :=
  default (0%Q, 0%Q) (last l).

(** Twice the signed area enclosed by a ring: positive when the ring runs
    counter-clockwise, negative when it runs clockwise. *)
Definition signedArea (r : ring) : Q :=
  (chain r + cross (last_position r) (first_position r))%Q.

(** Modelled from the spec: the package [geojson-rewind] is not in
    [src/]; the spec gives its contract only: a ring that does not follow
    the canonical winding is reversed, every other ring is left as it is.
    [dir] tells which of the two windings is asked of the ring. *)
Definition rewindRing (r : ring) (dir : bool) : ring :=
  if dir
  then (if Qltb 0 (signedArea r) then reverse r else r)
  else (if Qltb (signedArea r) 0 then reverse r else r).

(** Modelled from the spec: the outer ring of a polygon takes the winding
    [outer] stands for, its holes the opposite one. *)
Definition rewindRings (rings : list ring) (outer : bool) : list ring :=
  match rings with
  | [] => []
  | r :: holes => rewindRing r outer :: map (fun h => rewindRing h (negb outer)) holes
  end.

(** Modelled from the spec: polygons are rewound, "non-polygon
    geometries pass through unchanged". *)
Definition rewindGeometry (g : Geometry) (outer : bool) : Geometry :=
  match g with
  | Polygon rings => Polygon (rewindRings rings outer)
  | MultiPolygon ps => MultiPolygon (map (fun rings => rewindRings rings outer) ps)
  | _ => g
  end.

Definition rewindFeature (f : GeoFeature) (outer : bool) : GeoFeature :=
  mkGeoFeature (rewindGeometry (geometry f) outer) (feature_id f) (feature_properties f).

(** Modelled from the spec: [rewind(data, outer)] of [geojson-rewind],
    the GeometryNormalizer of the spec ([normalize]). *)
Definition rewind (d : GeoJSON) (outer : bool) : GeoJSON :=
  match d with
  | FeatureCollection fs => FeatureCollection (map (fun f => rewindFeature f outer) fs)
  | SingleFeature f => SingleFeature (rewindFeature f outer)
  | BareGeometry g => BareGeometry (rewindGeometry g outer)
  end.

End Rewind.

(** ** Spatial indexes *)

(** A feature handed out by the cluster index: [f.i], the coordinates of
    its point geometry and, for an aggregate, [properties.cluster === true]
    with [properties.cluster_id]. *)
Record Props := mkProps {
  cluster : bool;
  cluster_id : Z
}.

Record Feature := mkFeature {
  feat_i : Z;
  feat_coordinates : position;
  feat_properties : option Props
}.

(** [params.maxCount || Infinity] *)
Inductive Limit : Type :=
| Finite (k : Z)
| Infinity.

Definition bbox : Type := Q * Q * Q * Q.

(** The object built by [supercluster(...).load(...)]. *)
Record ClusterIndex := mkClusterIndex {
  getClusters : bbox -> Z -> list Feature;
  getLeaves : Z -> Z -> Limit -> list Feature
}.

Record Tile := mkTile {
  tile_features : list GeoFeature
}.

(** The object built by [geojsonvt(...)]: it has no [getClusters]. *)
Record TileIndex := mkTileIndex {
  getTile : Z -> Z -> Z -> option Tile
}.

Inductive GeoJSONIndex : Type :=
| Supercluster (c : ClusterIndex)
| GeoJSONVT (v : TileIndex).

(** ** Callbacks *)

Definition Error : Type := string.

Definition invalid_geojson : Error := "Input data is not a valid GeoJSON object.".

(** [callback(err, data)]: [Call None None] stands for [callback()] and
    [callback(null)]. *)
Inductive Callback (A : Type) : Type :=
| Call (err : option Error) (data : option A).
Arguments Call {A} err data.

Definition Options : Type := list (string * Z).

Record RequestParameters := mkRequest {
  url : string
}.

(** [params.data] is expected to be a string; a parsed object may be
    passed as well. *)
Inductive Literal : Type :=
| LString (s : string)
| LObject (d : GeoJSON).

Record LoadGeoJSONParameters := mkLoadParams {
  request : option RequestParameters;
  data : option Literal;
  load_source : string;
  load_cluster : bool;
  superclusterOptions : Options;
  geojsonVtOptions : Options
}.

Record getPointListDataParameters := mkPointListParams {
  bounds : bbox;
  zoom : Q;
  maxCount : option Z;
  source : string;
  minzoom : Z;
  maxzoom : Z;
  center : option position;
  travellingSalesmanApprox : bool
}.

(** The collaborators of the worker: the network, the JSON parser and the
    two index builders.  A builder either throws or returns its index. *)
Class Host := {
  ajax_getJSON : RequestParameters -> Callback JSValue;
  JSON_parse : string -> Error + JSValue;
  supercluster_load : Options -> option (list GeoFeature) -> Error + ClusterIndex;
  geojsonvt : GeoJSON -> Options -> Error + TileIndex
}.

(** ** The worker *)

Record WorkerTile := mkWorkerTile {
  tile_uid : Z
}.

(** [this._geoJSONIndexes] and [this.loaded], by their own keys (what a
    plain object inherits from [Object.prototype] is left out). *)
Record Worker := mkWorker {
  _geoJSONIndexes : gmap string GeoJSONIndex;
  loaded : gmap string (gmap Z WorkerTile)
}.

(** [new GeoJSONWorkerSource(...)] *)
Definition worker0 : Worker := mkWorker ∅ ∅.

(** *** Ingest *)

(** [loadGeoJSON(params, callback)]: the arguments the callback receives. *)
Definition loadGeoJSON {host : Host} (params : LoadGeoJSONParameters) : Callback JSValue :=
  match request params with
  | Some r => ajax_getJSON r
  | None =>
      match data params with
      | Some (LString s) =>
          match JSON_parse s with
          | inr v => Call None (Some v)
          | inl _ => Call (Some invalid_geojson) None
          end
      | _ => Call (Some invalid_geojson) None
      end
  end.

(** The right-hand side of the assignment in the [try] block of
    [loadData]. *)
Definition buildIndex {host : Host} (params : LoadGeoJSONParameters) (d : GeoJSON)
  : Error + GeoJSONIndex :=
  if load_cluster params
  then match supercluster_load (superclusterOptions params) (features_of d) with
       | inl e => inl e
       | inr c => inr (Supercluster c)
       end
  else match geojsonvt d (geojsonVtOptions params) with
       | inl e => inl e
       | inr v => inr (GeoJSONVT v)
       end.

(** [loadData(params, callback)]: the worker afterwards and the arguments
    of [callback]. *)
Definition loadData {host : Host} (w : Worker) (params : LoadGeoJSONParameters)
  : Worker * Callback unit :=
  match loadGeoJSON params with
  | Call (Some err) _ => (w, Call (Some err) None)
  | Call None None => (w, Call None None)
  | Call None (Some v) =>
      if falsy v then (w, Call None None)
      else match as_object v with
           | None => (w, Call (Some invalid_geojson) None)
           | Some d =>
               let d := Rewind.rewind d true in
               match buildIndex params d with
               | inl err => (w, Call (Some err) None)
               | inr index =>
                   (mkWorker (<[load_source params := index]> (_geoJSONIndexes w))
                             (<[load_source params := ∅]> (loaded w)),
                    Call None None)
               end
           end
  end.

(** [removeSource(params, callback)] *)
Definition removeSource (w : Worker) (src : string) : Worker * Callback unit :=
  (mkWorker (delete src (_geoJSONIndexes w)) (loaded w), Call None None).

(** *** Tiles *)

Record WorkerTileParameters := mkTileParams {
  tile_source : string;
  uid : Z
}.

(** The method [reloadTile] hands the request to. *)
Inductive ReloadPath : Type :=
| SuperReloadTile
| LoadTile.

(** [reloadTile(params, callback)] *)
Definition reloadTile (w : Worker) (params : WorkerTileParameters) : ReloadPath :=
  match loaded w !! tile_source params with
  | Some tiles =>
      match tiles !! uid params with
      | Some _ => SuperReloadTile
      | None => LoadTile
      end
  | None => LoadTile
  end.

(** Modelled from the spec: [VectorTileWorkerSource.loadTile] is not in
    [src/]; "transition occurs on first successful tile fetch": the tile is
    entered in the loaded-tile markers of its source. *)
Definition tileFetched (w : Worker) (params : WorkerTileParameters) : Worker :=
  mkWorker (_geoJSONIndexes w)
           (<[tile_source params :=
                <[uid params := mkWorkerTile (uid params)]>
                  (default ∅ (loaded w !! tile_source params))]> (loaded w)).

(** *** The point list *)

Record ClusterData := mkClusterData {
  clusterId : Z;
  coordinates : position;
  apartmentIds : list Z;
  distance : option num
}.

Module Result.
Record t := mk {
  apartmentIds : list Z;
  clusterLookup : gmap Z Z
}.
Definition empty : t := mk [] ∅.
End Result.

(** What the callback of [getPointListData] receives as its value: the
    result object, or the text [JSON.stringify(result)]. *)
Inductive Reply : Type :=
| Plain (r : Result.t)
| Stringified (r : Result.t).

(** A call either reaches its callback or dies on a [TypeError]. *)
Inductive Completion (A : Type) : Type :=
| Returned (c : Callback A)
| Thrown.
Arguments Returned {A} c.
Arguments Thrown {A}.

(** [params.maxCount || Infinity] *)
Definition effectiveMaxCount (m : option Z) : Limit :=
  match m with
  | Some k => if k =? 0 then Infinity else Finite k
  | None => Infinity
  end.

(** [apartmentsCnt >= maxCount] *)
Definition reached (apartmentsCnt : nat) (m : Limit) : bool :=
  match m with
  | Finite k => k <=? Z.of_nat apartmentsCnt
  | Infinity => false
  end.

(** [Math.max(Math.min(Math.floor(params.zoom), params.maxzoom), params.minzoom)] *)
Definition effectiveZoom (params : getPointListDataParameters) : Z :=
  Z.max (Z.min (Qfloor (zoom params)) (maxzoom params)) (minzoom params).

Definition getBboxArrCenter (b : bbox) : position :=
  let '(b0, b1, b2, b3) := b in
  (((b0 + b2) / 2)%Q, ((b1 + b3) / 2)%Q).

(** [Math.pow(a[0]-b[0], 2) + Math.pow(a[1]-b[1], 2)] *)
Definition calculateDistarnce (a b : position) : Q :=
  ((fst a - fst b) ^ 2 + (snd a - snd b) ^ 2)%Q.

(** The two branches of the loop body that choose [clusterId] and
    [clusterFeatures]. *)
Definition expand (supercluster : ClusterIndex) (z : Z) (m : Limit) (c : Feature)
  : Z * list Feature :=
  match feat_properties c with
  | Some p =>
      if cluster p
      then (cluster_id p, getLeaves supercluster (cluster_id p) z m)
      else (feat_i c, [c])
  | None => (feat_i c, [c])
  end.

(** The loop over [clusters]; [None] when [clusterFeatures[0]] is
    [undefined]. *)
Fixpoint gather (supercluster : ClusterIndex) (z : Z) (m : Limit)
    (clusters : list Feature) (apartmentsCnt : nat) : option (list ClusterData) :=
  match clusters with
  | [] => Some []
  | c :: rest =>
      let '(cid, clusterFeatures) := expand supercluster z m c in
      match clusterFeatures with
      | [] => None
      | f0 :: _ =>
          let allClusterData :=
            mkClusterData cid (feat_coordinates f0) (map feat_i clusterFeatures) None in
          let apartmentsCnt := (apartmentsCnt + length clusterFeatures)%nat in
          if reached apartmentsCnt m then Some [allClusterData]
          else cons allClusterData <$> gather supercluster z m rest apartmentsCnt
      end
  end.

(** [Array.prototype.sort(compare)]: the stable sort; [x] goes behind [y]
    exactly when [compare(x, y) > 0]. *)
Fixpoint sort_insert {A} (compare : A -> A -> num) (x : A) (l : list A) : list A :=
  match l with
  | [] => [x]
  | y :: l' => if gtb (compare x y) (Fin 0) then y :: sort_insert compare x l' else x :: l
  end.

Definition Array_sort {A} (compare : A -> A -> num) (l : list A) : list A :=
  foldr (sort_insert compare) [] l.

(** [(a, b) => a.distance - b.distance] *)
Definition byDistance (a b : ClusterData) : num :=
  sub (default NaN (distance a)) (default NaN (distance b)).

Definition setDistance (d : num) (g : ClusterData) : ClusterData :=
  mkClusterData (clusterId g) (coordinates g) (apartmentIds g) (Some d).

(** [distanceSort(allClustersData, center)] *)
Definition distanceSort (allClustersData : list ClusterData) (c : position)
  : list ClusterData :=
  Array_sort byDistance
    (map (fun g => setDistance (Fin (calculateDistarnce c (coordinates g))) g)
         allClustersData).

(** The reordering of the groups along the tour, as the array
    [allClustersDataSorted]; a slot is [None] when it holds [undefined]. *)
Definition tourOrder {M : MathLib} (allClustersData : list ClusterData) (c : position)
  : list (option ClusterData) :=
  let travellingSalesmanApproximation :=
    TSA.create (map coordinates allClustersData) (Some c) in
  let paths := default [] (head (TSA.solve travellingSalesmanApproximation)) in
  map (fun p : option nat => i ← p; allClustersData !! i) paths
  ++ replicate (length allClustersData - length paths) None.

(** The inner loop of the flattening: the identifiers of one group. *)
Definition pushGroup (acc : list Z * gmap Z Z) (g : ClusterData) : list Z * gmap Z Z :=
  fold_left
    (fun (acc : list Z * gmap Z Z) apartmentId =>
       (fst acc ++ [apartmentId], <[apartmentId := clusterId g]> (snd acc)))
    (apartmentIds g) acc.

(** The outer loop of the flattening; [None] when a slot is [undefined]. *)
Definition flatten (groups : list (option ClusterData)) : option (list Z * gmap Z Z) :=
  fold_left
    (fun acc g => acc ← acc; g ← g; Some (pushGroup acc g))
    groups (Some ([], ∅)).

(** [getPointListData(params, callback)] *)
Definition getPointListData {M : MathLib} (w : Worker) (params : getPointListDataParameters)
  : Completion Reply :=
  let result := Result.empty in
  match _geoJSONIndexes w !! source params with
  | None => Returned (Call None (Some (Plain result)))
  | Some (GeoJSONVT _) => Returned (Call None (Some (Stringified result)))
  | Some (Supercluster supercluster) =>
      let z := effectiveZoom params in
      let m := effectiveMaxCount (maxCount params) in
      let c := default (getBboxArrCenter (bounds params)) (center params) in
      let clusters := getClusters supercluster (bounds params) z in
      match gather supercluster z m clusters 0 with
      | None => Thrown
      | Some allClustersData =>
          let allClustersData := distanceSort allClustersData c in
          let allClustersDataSorted :=
            if travellingSalesmanApprox params
            then tourOrder allClustersData c
            else Some <$> allClustersData in
          match flatten allClustersDataSorted with
          | None => Thrown
          | Some (ids, lookup) =>
              Returned (Call None (Some (Plain (Result.mk ids lookup))))
          end
      end
  end.

(** *** Serving a tile *)

(** [params.coord] *)
Record Coord := mkCoord {
  coord_z : Z;
  coord_x : Z;
  coord_y : Z
}.

(** The [WorkerTileParameters] as [loadGeoJSONTile] reads them: the source
    of [tile], [coord] and [maxZoom]. *)
Record LoadTileParameters := mkLoadTileParams {
  tile : WorkerTileParameters;
  coord : Coord;
  maxZoom : Z
}.

(** A typed array: a window of [byteLength] bytes at [byteOffset] of its
    [buffer]. *)
Record Uint8Array := mkUint8Array {
  buffer : list Byte.byte;
  byteOffset : nat;
  byteLength : nat
}.

(** The bytes a typed array shows. *)
Definition viewed (a : Uint8Array) : list Byte.byte :=
  take (byteLength a) (drop (byteOffset a) (buffer a)).

(** [new Uint8Array(pbf)]: the bytes [pbf] shows, in a buffer of their
    own. *)
Definition Uint8Array_from (a : Uint8Array) : Uint8Array :=
  mkUint8Array (viewed a) 0 (byteLength a).

(** Modelled from the spec: the class [GeoJSONWrapper] is not in [src/];
    "a uniform feature-collection adapter" around the features of a tile. *)
Record GeoJSONWrapper := mkGeoJSONWrapper {
  wrapped : list GeoFeature
}.

(** What [loadGeoJSONTile] hands to its callback for a tile with data. *)
Record LoadedTile := mkLoadedTile {
  vectorTile : GeoJSONWrapper;
  rawData : list Byte.byte
}.

(** The collaborators of the tile path: the [getTile] method of a cluster
    index (the record [ClusterIndex] holds the two methods the point list
    calls) and the encoder [vtpbf]. *)
Class TileHost := {
  supercluster_getTile : ClusterIndex -> Z -> Z -> Z -> option Tile;
  vtpbf : GeoJSONWrapper -> Uint8Array
}.

(** [index.getTile(z, x, y)], for either kind of index. *)
Definition index_getTile {T : TileHost} (index : GeoJSONIndex) (z x y : Z) : option Tile :=
  match index with
  | Supercluster c => supercluster_getTile c z x y
  | GeoJSONVT v => getTile v z x y
  end.

(** [pbf.byteOffset !== 0 || pbf.byteLength !== pbf.buffer.byteLength] *)
Definition windowed (pbf : Uint8Array) : bool :=
  negb (byteOffset pbf =? 0)%nat || negb (byteLength pbf =? length (buffer pbf))%nat.

(** [loadGeoJSONTile(params, callback)]: the arguments of [callback]. *)
Definition loadGeoJSONTile {T : TileHost} (w : Worker) (params : LoadTileParameters)
  : Callback LoadedTile :=
  match _geoJSONIndexes w !! tile_source (tile params) with
  | None => Call None None
  | Some index =>
      match index_getTile index
              (Z.min (coord_z (coord params)) (maxZoom params))
              (coord_x (coord params)) (coord_y (coord params)) with
      | None => Call None None
      | Some geoJSONTile =>
          let geojsonWrapper := mkGeoJSONWrapper (tile_features geoJSONTile) in
          let pbf := vtpbf geojsonWrapper in
          let pbf := if windowed pbf then Uint8Array_from pbf else pbf in
          Call None (Some (mkLoadedTile geojsonWrapper (buffer pbf)))
      end
  end.

(** *** The points of a tour on a canvas *)


(** ** The other revision of the point list

    The second source file holds a revision of [getPointListData] without
    the tour: its inner loop leaves a cluster as soon as the counter
    reaches [maxCount], and the groups are sorted by great-circle distance
    ([geoSpiralSort]). *)

Module GeoSpiral.

(** The inner loop with its [break]: the identifiers pushed and the
    counter afterwards. *)
Fixpoint pushUntil (m : Limit) (clusterFeatures : list Feature) (apartmentsCnt : nat)
  : list Z * nat :=
  match clusterFeatures with
  | [] => ([], apartmentsCnt)
  | f :: fs =>
      let apartmentsCnt := S apartmentsCnt in
      if reached apartmentsCnt m then ([feat_i f], apartmentsCnt)
      else let '(ids, n) := pushUntil m fs apartmentsCnt in (feat_i f :: ids, n)
  end.

Fixpoint gather (supercluster : ClusterIndex) (z : Z) (m : Limit)
    (clusters : list Feature) (apartmentsCnt : nat) : option (list ClusterData) :=
  match clusters with
  | [] => Some []
  | c :: rest =>
      let '(cid, clusterFeatures) := expand supercluster z m c in
      match clusterFeatures with
      | [] => None
      | f0 :: _ =>
          let '(ids, apartmentsCnt) := pushUntil m clusterFeatures apartmentsCnt in
          let allClusterData := mkClusterData cid (feat_coordinates f0) ids None in
          if reached apartmentsCnt m then Some [allClusterData]
          else cons allClusterData <$> gather supercluster z m rest apartmentsCnt
      end
  end.

(** [Math.PI / 180], as the source writes it. *)
Definition p : Q := 17453292519943295 # 1000000000000000000.

(** The haversine distance in kilometres. *)
Definition calculateDistarnce {M : MathLib} (a b : position) : num :=
  let c := Math_cos in
  let a' :=
    ((5 # 10) - c ((snd b - snd a) * p) / 2
     + c (snd a * p) * c (snd b * p) * (1 - c ((fst b - fst a) * p)) / 2)%Q in
  mul (Fin 12742) (asin (sqrt (Fin a'))).

Definition geoSpiralSort {M : MathLib} (allClustersData : list ClusterData) (c : position)
  : list ClusterData :=
  Array_sort byDistance
    (map (fun g => setDistance (calculateDistarnce c (coordinates g)) g)
         allClustersData).

Definition getPointListData {M : MathLib} (w : Worker) (params : getPointListDataParameters)
  : Completion Reply :=
  let result := Result.empty in
  match _geoJSONIndexes w !! source params with
  | None => Returned (Call None (Some (Plain result)))
  | Some (GeoJSONVT _) => Returned (Call None (Some (Stringified result)))
  | Some (Supercluster supercluster) =>
      let z := effectiveZoom params in
      let m := effectiveMaxCount (maxCount params) in
      let c := default (getBboxArrCenter (bounds params)) (center params) in
      let clusters := getClusters supercluster (bounds params) z in
      match gather supercluster z m clusters 0 with
      | None => Thrown
      | Some allClustersData =>
          let allClustersData := geoSpiralSort allClustersData c in
          match flatten (Some <$> allClustersData) with
          | None => Thrown
          | Some (ids, lookup) =>
              Returned (Call None (Some (Plain (Result.mk ids lookup))))
          end
      end
  end.

End GeoSpiral.

(** ** Concrete collaborators and data *)

Module Demo.

(** A square root rounded down to a multiple of [2^-20], a cosine and an
    arc sine cut after a few terms of their series. *)
Definition sqrt_down (q : Q) : Q :=
  Z.sqrt (Qnum q * Zpos (Qden q) * 4 ^ 20) # (Qden q * 2 ^ 20).

#[export] Instance math : MathLib := {|
  Math_sqrt := sqrt_down;
  Math_cos := fun x => (1 - x * x / 2 + x * x * x * x / 24)%Q;
  Math_asin := fun x => (x + x * x * x / 6)%Q
|}.

Definition leaf (i : Z) (x y : Z) : Feature :=
  mkFeature i (inject_Z x, inject_Z y) None.

Definition aggregate (cid : Z) (x y : Z) : Feature :=
  mkFeature 0 (inject_Z x, inject_Z y) (Some (mkProps true cid)).

Definition within (m : Limit) (l : list Feature) : list Feature :=
  match m with
  | Finite k => take (Z.to_nat k) l
  | Infinity => l
  end.

(** One loose point and one aggregate of three points. *)
Definition index : ClusterIndex := {|
  getClusters := fun _ _ => [leaf 1 0 0; aggregate 100 1 1];
  getLeaves := fun cid _ m =>
    if cid =? 100 then within m [leaf 2 1 1; leaf 3 2 2; leaf 4 3 3] else []
|}.

(** Five loose points, as in the end-to-end scenario of the spec. *)
Definition scattered : ClusterIndex := {|
  getClusters := fun _ _ =>
    [leaf 1 0 0; leaf 2 0 1; leaf 3 1 0; leaf 4 1 1; leaf 5 50 50];
  getLeaves := fun _ _ _ => []
|}.

Definition tiles : TileIndex := {| getTile := fun _ _ _ => None |}.

Definition worker : Worker :=
  mkWorker (<["points" := Supercluster index]>
              (<["scattered" := Supercluster scattered]>
                 (<["shapes" := GeoJSONVT tiles]> ∅)))
           ∅.

Definition world : bbox := ((-100)%Q, (-100)%Q, 100%Q, 100%Q).

Definition query (src : string) (m : option Z) (tsp : bool) : getPointListDataParameters :=
  mkPointListParams world 3%Q m src 0 16 None tsp.

Definition square : GeoJSON :=
  FeatureCollection
    [mkGeoFeature
       (Polygon [[(0, 0); (0, 1); (1, 1); (1, 0); (0, 0)]%Q])
       (Some 1) []].

(** A host whose network always answers with [square], whose parser
    accepts the text [square] only, whose cluster builder needs a
    feature collection and whose tile builder refuses a bare geometry. *)
#[export] Instance host : Host := {|
  ajax_getJSON := fun _ => Call None (Some (VObject square));
  JSON_parse := fun s =>
    if decide (s = "square") then inr (VObject square)
    else if decide (s = "point") then inr (VObject (BareGeometry (Point (0, 0)%Q)))
    else inl "SyntaxError";
  supercluster_load := fun _ fs =>
    match fs with
    | Some _ => inr index
    | None => inl "TypeError"
    end;
  geojsonvt := fun d _ =>
    match d with
    | BareGeometry _ => inl "unsupported"
    | _ => inr tiles
    end
|}.

Definition ingest (src : string) (r : option RequestParameters) (d : option Literal)
    (clustered : bool) : LoadGeoJSONParameters :=
  mkLoadParams r d src clustered [] [].

(** Five points, two of them equal. *)
Definition five : list position := [(0, 0); (5, 1); (1, 1); (1, 1); (2, 2)]%Q.

(** A worker that has ingested [square] as the tile source ["shapes"] and
    served its tile [7]. *)
Definition tile7 : WorkerTileParameters := mkTileParams "shapes" 7.

Definition served : Worker :=
  tileFetched
    (fst (loadData worker0 (ingest "shapes" None (Some (LString "square")) false)))
    tile7.

End Demo.

(** ** A concrete tile host *)

Module DemoTiles.

(** The pool buffer of the encoder and the three bytes it writes at offset
    two. *)
Definition pool : list Byte.byte :=
  [Byte.x00; Byte.x00; Byte.x1a; Byte.x02; Byte.x78; Byte.x00].

#[export] Instance host : TileHost := {|
  supercluster_getTile := fun _ _ _ _ => None;
  vtpbf := fun _ => mkUint8Array pool 2 3
|}.

(** A tile index that holds the one tile [(0, 0, 0)]. *)
Definition pyramid : TileIndex := {|
  getTile := fun z x y =>
    if (z =? 0) && (x =? 0) && (y =? 0)
    then Some (mkTile [mkGeoFeature (Point (0, 0)%Q) (Some 1) []])
    else None
|}.

Definition worker : Worker :=
  mkWorker (<["shapes" := GeoJSONVT pyramid]> (<["points" := Supercluster Demo.index]> ∅))
           (<["shapes" := {[7 := mkWorkerTile 7]}]> ∅).

Definition ask (src : string) (z x y mz : Z) : LoadTileParameters :=
  mkLoadTileParams (mkTileParams src 7) (mkCoord z x y) mz.

(** The demonstration host with a parser that also reads the texts [null]
    and [0]. *)
#[export] Instance reader : Host := {|
  ajax_getJSON := ajax_getJSON (Host := Demo.host);
  JSON_parse := fun s =>
    if decide (s = "null") then inr VNull
    else if decide (s = "0") then inr (VNumber 0)
    else JSON_parse (Host := Demo.host) s;
  supercluster_load := supercluster_load (Host := Demo.host);
  geojsonvt := geojsonvt (Host := Demo.host)
|}.

End DemoTiles.

(** ** Vocabulary of the statements *)

(** The invariant of the outer loop of [solve] before iteration [i], on
    [(remaining, path)]: [remaining] holds every index once and [path]
    holds its first [i] entries. *)
Definition tour_invariant (n i : nat) (st : list nat * list nat) : Prop :=
  length (fst st) = n /\ fst st ≡ₚ seq 0 n /\ snd st ≡ₚ take i (fst st).




(** What [distanceSort] sorts: the groups with their distance filled in. *)
Definition withDistances (c : position) (gs : list ClusterData) : list ClusterData :=
  map (fun g => setDistance (Fin (calculateDistarnce c (coordinates g))) g) gs.

(** The result the callback receives for the groups [gs], in that order. *)
Definition resultOf (gs : list ClusterData) : Result.t :=
  Result.mk (mjoin (apartmentIds <$> gs)) (snd (fold_left pushGroup gs ([], ∅))).

(** The identifiers the index hands out for a list of clusters. *)
Definition drawn (supercluster : ClusterIndex) (z : Z) (m : Limit) (c : Feature) : list Z :=
  feat_i <$> snd (expand supercluster z m c).

Definition identifiers (supercluster : ClusterIndex) (z : Z) (m : Limit)
    (clusters : list Feature) : list Z :=
  mjoin (drawn supercluster z m <$> clusters).

(** The shape of the outer loop of [solve] before iteration [i], whatever
    the comparisons answer: [remaining] holds every index once, and [path]
    has [i] entries below [n], the seed in front. *)
Definition tour_shape (n first i : nat) (st : list nat * list nat) : Prop :=
  length (fst st) = n /\ fst st ≡ₚ seq 0 n
  /\ head (snd st) = Some first /\ length (snd st) = i
  /\ Forall (fun k => (k < n)%nat) (snd st).


(** A number from [0] to [extent]. *)
Definition within (extent : Q) (r : num) : Prop :=
  exists q, r = Fin q /\ (0 <= q <= extent)%Q.


(** The parameters with [travellingSalesmanApprox] set to [b]. *)
Definition withTour (b : bool) (params : getPointListDataParameters)
  : getPointListDataParameters :=
  mkPointListParams (bounds params) (zoom params) (maxCount params) (source params)
    (minzoom params) (maxzoom params) (center params) b.

(** The parameters with [maxCount] set to [m]. *)
Definition withMaxCount (m : option Z) (params : getPointListDataParameters)
  : getPointListDataParameters :=
  mkPointListParams (bounds params) (zoom params) m (source params)
    (minzoom params) (maxzoom params) (center params)
    (travellingSalesmanApprox params).

(* ===================================================================== *)
(** * Part II: properties *)
(* ===================================================================== *)

(** ** Numbers *)

Lemma Qltb_true (a b : Q) : Qltb a b = true <-> (a < b)%Q.
Proof.
  unfold Qltb. rewrite negb_true_iff.
  destruct (Qle_bool b a) eqn:E.
  - apply Qle_bool_iff in E. split; [discriminate | intros L; lra].
  - split; [intros _ | reflexivity].
    destruct (Qlt_le_dec a b) as [L | L]; [exact L |].
    apply Qle_bool_iff in L. congruence.
Qed.

Lemma Qltb_false (a b : Q) : Qltb a b = false <-> (b <= a)%Q.
Proof.
  unfold Qltb. rewrite negb_false_iff. apply Qle_bool_iff.
Qed.

Lemma ltb_NaN_l (b : num) : ltb NaN b = false.
Proof. reflexivity. Qed.

(** A number that is not below zero and is below something is above [-1]. *)
Lemma ltb_minus_one (d m : num) :
  ltb d (Fin 0) = false -> ltb d m = true -> ltb (Fin (-1)) d = true.
Proof.
  destruct d as [x | | |]; simpl; try discriminate.
  - intros H0 _. apply Qltb_false in H0. apply Qltb_true. lra.
  - destruct m; discriminate.
Qed.

Section SqrtFacts.
Context {M : MathLib}.
Hypothesis Math_sqrt_nonneg : forall q : Q, (0 <= q)%Q -> (0 <= Math_sqrt q)%Q.

Lemma sqrt_not_negative (a : num) : ltb (sqrt a) (Fin 0) = false.
Proof using Math_sqrt_nonneg.
  destruct a as [x | | |]; simpl; try reflexivity.
  destruct (Qltb x 0) eqn:E; simpl; [reflexivity |].
  apply Qltb_false in E. apply Qltb_false. auto.
Qed.

Lemma entry_not_negative (pts : list TSA.npoint) (a b : nat) :
  ltb (TSA.entry pts a b) (Fin 0) = false.
Proof using Math_sqrt_nonneg.
  unfold TSA.entry.
  destruct (pts !! _); [| reflexivity].
  destruct (pts !! _); [| reflexivity].
  apply sqrt_not_negative.
Qed.

Lemma dist_create_not_negative (pts : list TSA.point) (c : option TSA.point) (a b : nat) :
  ltb (TSA.dist (TSA.create pts c) a b) (Fin 0) = false.
Proof using Math_sqrt_nonneg.
  unfold TSA.dist, TSA.create.
  destruct (TSA.normalizePoints pts) as [[[bd h] w] pts'] eqn:E. simpl.
  unfold TSA.generateDistanceMatrix.
  rewrite list_lookup_fmap.
  destruct (seq 0 (length pts') !! a) as [a' |] eqn:Ea; simpl; [| reflexivity].
  rewrite list_lookup_fmap.
  destruct (seq 0 (length pts') !! b) as [b' |] eqn:Eb; simpl; [| reflexivity].
  apply entry_not_negative.
Qed.

End SqrtFacts.

(** ** The tour *)

Module TSAFacts.
Import TSA.

Lemma ceiling_above (s : t) : ltb (Fin (-1)) (ceiling s) = true.
Proof.
  unfold ceiling. simpl. apply Qltb_true.
  assert (0 <= height s * height s)%Q by (apply Qsqr_nonneg || nra).
  assert (0 <= width s * width s)%Q by (apply Qsqr_nonneg || nra).
  lra.
Qed.

Section Selection.
Variable s : t.
Hypothesis dist_not_negative : forall a b, ltb (dist s a b) (Fin 0) = false.

Lemma minimalDistance_above (path : list nat) (candidate : nat) :
  ltb (Fin (-1)) (minimalDistance s path candidate) = true.
Proof using dist_not_negative.
  unfold minimalDistance.
  generalize (ceiling_above s). generalize (ceiling s).
  induction path as [| p path IH]; intros m Hm; simpl; [exact Hm |].
  apply IH. unfold closer.
  destruct (ltb (dist s p candidate) m) eqn:E; [| exact Hm].
  eapply ltb_minus_one; eauto.
Qed.

(** The index chosen by the loop over [j] is one of the indices the
    loop ran over, or the index it started with. *)
Lemma farthest_fold_index (path remaining : list nat) (js : list nat) (acc : num * nat) :
  snd (fold_left (consider s path remaining) js acc) = snd acc
  \/ snd (fold_left (consider s path remaining) js acc) ∈ js.
Proof.
  revert acc. induction js as [| j js IH]; intros acc; simpl; [by left |].
  destruct (IH (consider s path remaining acc j)) as [E | E].
  - rewrite E. unfold consider.
    destruct (gtb _ _); simpl; [right; left | by left].
  - right. by right.
Qed.

Lemma farthest_range (path remaining : list nat) (i : nat) :
  (i < length (points s))%nat ->
  (i <= snd (farthest s path remaining i) < length (points s))%nat.
Proof using dist_not_negative.
  intros Hi. unfold farthest.
  replace (length (points s) - i)%nat with (S (length (points s) - S i)) by lia.
  simpl.
  assert (E : consider s path remaining (Fin (-1), 0%nat) i
              = (minimalDistance s path (at_index remaining i), i)).
  { unfold consider, gtb. cbn [fst]. by rewrite minimalDistance_above. }
  rewrite E.
  destruct (farthest_fold_index path remaining
              (seq (S i) (length (points s) - S i))
              (minimalDistance s path (at_index remaining i), i)) as [F | F].
  - rewrite F. simpl. lia.
  - apply elem_of_seq in F. lia.
Qed.

End Selection.

(** *** [swap] and [splice] *)

Lemma at_index_lookup (l : list nat) (i x : nat) : l !! i = Some x -> at_index l i = x.
Proof. unfold at_index. by intros ->. Qed.

Lemma swap_length (l : list nat) (i j : nat) : length (swap l i j) = length l.
Proof. unfold swap. by rewrite !length_insert. Qed.

Lemma swap_lookup (l : list nat) (i j k : nat) :
  (i < length l)%nat -> (j < length l)%nat ->
  swap l i j !! k =
    if decide (k = j) then l !! i else if decide (k = i) then l !! j else l !! k.
Proof.
  intros Hi Hj. unfold swap, at_index.
  destruct (lookup_lt_is_Some_2 l i Hi) as [a Ha].
  destruct (lookup_lt_is_Some_2 l j Hj) as [b Hb].
  rewrite Ha, Hb. simpl.
  destruct (decide (k = j)) as [-> |].
  - rewrite list_lookup_insert_eq; [done | by rewrite length_insert].
  - rewrite list_lookup_insert_ne by done.
    destruct (decide (k = i)) as [-> |].
    + by rewrite list_lookup_insert_eq.
    + by rewrite list_lookup_insert_ne.
Qed.

Lemma swap_Permutation (l : list nat) (i j : nat) :
  (i < length l)%nat -> (j < length l)%nat -> swap l i j ≡ₚ l.
Proof.
  intros Hi Hj. apply Permutation_inj. split; [apply swap_length |].
  exists (fun k => if decide (k = j) then i else if decide (k = i) then j else k).
  split.
  - intros a b. repeat case_decide; intros; subst; congruence.
  - intros k. rewrite swap_lookup by done. by repeat case_decide.
Qed.

Lemma swap_take (l : list nat) (i j : nat) :
  (j <= i)%nat -> take j (swap l i j) = take j l.
Proof.
  intros Hij. unfold swap.
  by rewrite !take_insert_ge by lia.
Qed.

Lemma swap_at (l : list nat) (i j : nat) :
  (i < length l)%nat -> (j < length l)%nat ->
  swap l i j !! j = l !! i.
Proof. intros Hi Hj. rewrite swap_lookup by done. by rewrite decide_True. Qed.

Lemma splice_Permutation (path : list nat) (pos x : nat) : splice path pos x ≡ₚ x :: path.
Proof.
  unfold splice. rewrite <- Permutation_middle.
  by rewrite take_drop.
Qed.

(** *** The outer loop *)

Lemma step_path (s : t) (remaining path : list nat) (i : nat) :
  exists pos,
    step s (remaining, path) i =
      (swap remaining (snd (farthest s path remaining i)) i,
       splice path pos
         (at_index (swap remaining (snd (farthest s path remaining i)) i) i)).
Proof.
  unfold step.
  destruct (cheapest s path _) as [sm ix].
  destruct (ltb _ sm); eauto.
Qed.

Section Loop.
Variable s : t.
Hypothesis dist_not_negative : forall a b, ltb (dist s a b) (Fin 0) = false.

Lemma step_inv (i : nat) (st : list nat * list nat) :
  (i < length (points s))%nat ->
  tour_invariant (length (points s)) i st -> tour_invariant (length (points s)) (S i) (step s st i).
Proof using dist_not_negative.
  intros Hi. destruct st as [remaining path]. intros (Hlen & Hperm & Hpath).
  simpl in Hlen, Hperm, Hpath.
  destruct (step_path s remaining path i) as [pos ->].
  pose proof (farthest_range s dist_not_negative path remaining i Hi) as Hr.
  set (ix := snd (farthest s path remaining i)) in *.
  assert (Hix : (ix < length remaining)%nat) by lia.
  assert (Hi' : (i < length remaining)%nat) by lia.
  destruct (lookup_lt_is_Some_2 remaining ix Hix) as [x Hx].
  assert (Hat : swap remaining ix i !! i = Some x)
    by (rewrite swap_at by done; exact Hx).
  rewrite (at_index_lookup _ _ _ Hat).
  unfold tour_invariant; simpl. split_and!.
  - by rewrite swap_length.
  - by rewrite swap_Permutation.
  - rewrite splice_Permutation.
    rewrite (take_S_r _ _ _ Hat), swap_take by lia.
    rewrite Hpath. by rewrite Permutation_cons_append.
Qed.

Lemma loop_inv (k i : nat) (st : list nat * list nat) :
  (i + k = length (points s))%nat ->
  tour_invariant (length (points s)) i st ->
  tour_invariant (length (points s)) (length (points s)) (fold_left (step s) (seq i k) st).
Proof using dist_not_negative.
  revert i st. induction k as [| k IH]; intros i st Hk Hinv; simpl.
  - by replace (length (points s)) with i at 2 by lia.
  - apply IH; [lia |]. apply step_inv; [lia | done].
Qed.

Lemma tour_Permutation :
  randomPath s = seq 0 (length (points s)) ->
  (0 < length (points s))%nat ->
  tour s 0 ≡ₚ seq 0 (length (points s)).
Proof using dist_not_negative.
  intros Hrp Hn. unfold tour.
  pose proof (loop_inv (length (points s) - 1) 1 (randomPath s, [0%nat])) as L.
  destruct L as (Hlen & Hperm & Hpath); [lia | |].
  - unfold tour_invariant; simpl. rewrite Hrp, length_seq. split_and!; [done | done |].
    destruct (length (points s)); [lia | done].
  - rewrite Hpath, take_ge by lia. done.
Qed.

Lemma tour_short :
  randomPath s = seq 0 (length (points s)) ->
  (0 < length (points s) <= 2)%nat ->
  tour s 0 = seq 0 (length (points s)).
Proof using dist_not_negative.
  intros Hrp Hn. unfold tour. rewrite Hrp.
  destruct (length (points s)) as [| [| [| n]]] eqn:En; try lia; simpl; [done |].
  pose proof (farthest_range s dist_not_negative [0%nat] [0; 1]%nat 1) as Hr.
  rewrite En in Hr.
  unfold step.
  replace (snd (farthest s [0%nat] [0; 1]%nat 1)) with 1%nat by lia.
  cbn. by destruct (ltb _ _).
Qed.

End Loop.

End TSAFacts.

(** The tour of a freshly built approximation. *)
Lemma create_points_length {M : MathLib} (pts : list TSA.point) (c : option TSA.point) :
  length (TSA.points (TSA.create pts c)) = length pts.
Proof.
  unfold TSA.create, TSA.normalizePoints. simpl. by rewrite length_map.
Qed.

Lemma create_randomPath {M : MathLib} (pts : list TSA.point) (c : option TSA.point) :
  TSA.randomPath (TSA.create pts c) = seq 0 (length pts).
Proof.
  unfold TSA.create, TSA.normalizePoints, TSA.generateRandomPath. simpl.
  by rewrite length_map.
Qed.

Lemma solve_create {M : MathLib} (pts : list TSA.point) (c : option TSA.point) :
  (forall q : Q, (0 <= q)%Q -> (0 <= Math_sqrt q)%Q) ->
  pts <> [] ->
  TSA.solve (TSA.create pts c) = [Some <$> TSA.tour (TSA.create pts c) 0]
  /\ TSA.tour (TSA.create pts c) 0 ≡ₚ seq 0 (length pts)
  /\ ((length pts <= 2)%nat -> TSA.tour (TSA.create pts c) 0 = seq 0 (length pts)).
Proof.
  intros Hsqrt Hne.
  assert (Hn : (0 < length pts)%nat) by (destruct pts; [done | simpl; lia]).
  pose proof (create_points_length pts c) as Hlen.
  pose proof (create_randomPath pts c) as Hrp.
  pose proof (dist_create_not_negative Hsqrt pts c) as Hd.
  split_and!.
  - unfold TSA.solve. rewrite Hrp. destruct (length pts); [lia | done].
  - rewrite <- Hlen. apply TSAFacts.tour_Permutation; [done | | lia].
    by rewrite Hlen.
  - intros H2. rewrite <- Hlen. apply TSAFacts.tour_short; [done | | lia].
    by rewrite Hlen.
Qed.

(** ** Sorting *)

Section Sorting.
Context {A : Type} (compare : A -> A -> num).

Lemma sort_insert_cons (x y : A) (l : list A) :
  sort_insert compare x (y :: l) =
    if gtb (compare x y) (Fin 0) then y :: sort_insert compare x l else x :: y :: l.
Proof. reflexivity. Qed.

Lemma sort_insert_Permutation (x : A) (l : list A) : sort_insert compare x l ≡ₚ x :: l.
Proof.
  induction l as [| y l IH]; [done |].
  rewrite sort_insert_cons. case_match; [| done].
  rewrite IH. apply Permutation_swap.
Qed.

Lemma Array_sort_Permutation (l : list A) : Array_sort compare l ≡ₚ l.
Proof.
  induction l as [| x l IH]; simpl; [done |].
  by rewrite sort_insert_Permutation, IH.
Qed.

End Sorting.







Lemma distanceSort_Permutation (c : position) (gs : list ClusterData) :
  distanceSort gs c ≡ₚ withDistances c gs.
Proof. apply Array_sort_Permutation. Qed.


Lemma withDistances_apartmentIds (c : position) (gs : list ClusterData) :
  apartmentIds <$> withDistances c gs = apartmentIds <$> gs.
Proof. induction gs as [| g gs IH]; simpl; [done | by f_equal]. Qed.

Lemma distanceSort_apartmentIds (c : position) (gs : list ClusterData) :
  apartmentIds <$> distanceSort gs c ≡ₚ apartmentIds <$> gs.
Proof. by rewrite distanceSort_Permutation, withDistances_apartmentIds. Qed.

Lemma distanceSort_length (c : position) (gs : list ClusterData) :
  length (distanceSort gs c) = length gs.
Proof.
  rewrite distanceSort_Permutation. unfold withDistances. by rewrite length_map.
Qed.


(** ** Flattening the groups *)

Lemma push_fold_fst (cid : Z) (ids : list Z) (acc : list Z * gmap Z Z) :
  fst (fold_left
         (fun (acc : list Z * gmap Z Z) a => (fst acc ++ [a], <[a := cid]> (snd acc)))
         ids acc)
  = fst acc ++ ids.
Proof.
  revert acc. induction ids as [| a ids IH]; intros acc; simpl.
  - by rewrite app_nil_r.
  - rewrite IH. simpl. by rewrite <- app_assoc.
Qed.

Lemma push_fold_lookup (cid : Z) (ids : list Z) (acc : list Z * gmap Z Z) (id : Z) :
  snd (fold_left
         (fun (acc : list Z * gmap Z Z) a => (fst acc ++ [a], <[a := cid]> (snd acc)))
         ids acc) !! id
  = if decide (id ∈ ids) then Some cid else snd acc !! id.
Proof.
  revert acc. induction ids as [| a ids IH]; intros acc.
  - cbn [fold_left].
    destruct (decide (id ∈ [])) as [Hin | Hin]; [by apply elem_of_nil in Hin | done].
  - cbn [fold_left]. rewrite IH. cbn [fst snd].
    destruct (decide (id ∈ ids)) as [Hin | Hin].
    + rewrite decide_True; [done | by right].
    + destruct (decide (id = a)) as [-> | Hne].
      * rewrite lookup_insert_eq. rewrite decide_True; [done | by left].
      * rewrite lookup_insert_ne by done.
        rewrite decide_False; [done |].
        intros [? | ?]%elem_of_cons; done.
Qed.

Lemma pushGroup_fst (acc : list Z * gmap Z Z) (g : ClusterData) :
  fst (pushGroup acc g) = fst acc ++ apartmentIds g.
Proof. apply push_fold_fst. Qed.

Lemma pushGroup_lookup (acc : list Z * gmap Z Z) (g : ClusterData) (id : Z) :
  snd (pushGroup acc g) !! id
  = if decide (id ∈ apartmentIds g) then Some (clusterId g) else snd acc !! id.
Proof. apply push_fold_lookup. Qed.

Lemma pushGroups_fst (gs : list ClusterData) (acc : list Z * gmap Z Z) :
  fst (fold_left pushGroup gs acc) = fst acc ++ mjoin (apartmentIds <$> gs).
Proof.
  revert acc. induction gs as [| g gs IH]; intros acc; simpl.
  - by rewrite app_nil_r.
  - by rewrite IH, pushGroup_fst, <- app_assoc.
Qed.

Lemma pushGroups_lookup_other (gs : list ClusterData) (acc : list Z * gmap Z Z) (id : Z) :
  id ∉ mjoin (apartmentIds <$> gs) ->
  snd (fold_left pushGroup gs acc) !! id = snd acc !! id.
Proof.
  revert acc. induction gs as [| g gs IH]; intros acc Hid; simpl in *; [done |].
  rewrite not_elem_of_app in Hid. destruct Hid as [Hg Hgs].
  rewrite IH by done. rewrite pushGroup_lookup. by rewrite decide_False.
Qed.

Lemma pushGroups_lookup (gs : list ClusterData) (acc : list Z * gmap Z Z)
    (g : ClusterData) (id : Z) :
  NoDup (mjoin (apartmentIds <$> gs)) ->
  g ∈ gs -> id ∈ apartmentIds g ->
  snd (fold_left pushGroup gs acc) !! id = Some (clusterId g).
Proof.
  revert acc. induction gs as [| g' gs IH]; intros acc Hnd Hg Hid; simpl in *.
  - by apply elem_of_nil in Hg.
  - apply NoDup_app in Hnd as (Hnd1 & Hdisj & Hnd2).
    apply elem_of_cons in Hg as [-> | Hg].
    + rewrite pushGroups_lookup_other by auto.
      rewrite pushGroup_lookup. by rewrite decide_True.
    + by apply IH.
Qed.

Lemma flatten_fold_None (l : list (option ClusterData)) :
  fold_left (fun acc g => acc ← acc; g ← g; Some (pushGroup acc g)) l None = None.
Proof. induction l as [| g l IH]; simpl; done. Qed.

Lemma flatten_fold_Some (gs : list ClusterData) (acc : list Z * gmap Z Z) :
  fold_left (fun acc g => acc ← acc; g ← g; Some (pushGroup acc g))
            (Some <$> gs) (Some acc)
  = Some (fold_left pushGroup gs acc).
Proof.
  revert acc. induction gs as [| g gs IH]; intros acc; simpl; [done |].
  apply IH.
Qed.

Lemma flatten_Some (gs : list ClusterData) :
  flatten (Some <$> gs) = Some (fold_left pushGroup gs ([], ∅)).
Proof. apply flatten_fold_Some. Qed.

Lemma flatten_undefined (l1 l2 : list (option ClusterData)) :
  flatten (l1 ++ None :: l2) = None.
Proof.
  unfold flatten. rewrite fold_left_app. simpl.
  match goal with |- context [fold_left ?f l1 ?a] => destruct (fold_left f l1 a) end;
    simpl; apply flatten_fold_None.
Qed.

Lemma flatten_resultOf (gs : list ClusterData) :
  flatten (Some <$> gs)
  = Some (Result.apartmentIds (resultOf gs), Result.clusterLookup (resultOf gs)).
Proof.
  rewrite flatten_Some. f_equal. simpl.
  rewrite <- (pushGroups_fst gs ([], ∅)). by destruct (fold_left _ _ _).
Qed.

(** ** The order along the tour *)

Lemma lookup_all_indices {A} (l : list A) :
  (fun i => l !! i) <$> seq 0 (length l) = Some <$> l.
Proof.
  apply list_eq. intros i. rewrite !list_lookup_fmap.
  destruct (decide (i < length l)%nat) as [Hi | Hi].
  - rewrite lookup_seq_lt by done. simpl.
    destruct (lookup_lt_is_Some_2 l i Hi) as [x Hx]. by rewrite Hx.
  - rewrite (lookup_ge_None_2 l) by lia.
    rewrite (lookup_ge_None_2 (seq 0 (length l))); [done |]. rewrite length_seq. lia.
Qed.

Lemma Permutation_all_Some {A} (l : list (option A)) (gs : list A) :
  l ≡ₚ Some <$> gs -> exists gs', l = Some <$> gs' /\ gs' ≡ₚ gs.
Proof.
  intros HP. apply Permutation_map_inv in HP as (gs' & -> & HP).
  exists gs'. split; [done | by symmetry].
Qed.

Lemma tourOrder_Permutation {M : MathLib} (gs : list ClusterData) (c : position) :
  (forall q : Q, (0 <= q)%Q -> (0 <= Math_sqrt q)%Q) ->
  gs <> [] ->
  exists order, tourOrder gs c = Some <$> order /\ order ≡ₚ gs.
Proof.
  intros Hsqrt Hne. unfold tourOrder.
  destruct (solve_create (coordinates <$> gs) (Some c) Hsqrt) as (Hs & HP & _).
  { by destruct gs. }
  change (map coordinates gs) with (coordinates <$> gs).
  rewrite Hs. simpl.
  rewrite length_fmap. rewrite (Permutation_length HP), length_seq, length_fmap.
  rewrite Nat.sub_diag. simpl. rewrite app_nil_r.
  change (map ?f ?l) with (f <$> l). rewrite <- list_fmap_compose.
  apply Permutation_all_Some.
  rewrite length_fmap in HP.
  rewrite (fmap_Permutation _ _ _ HP).
  by rewrite <- lookup_all_indices.
Qed.

Lemma tourOrder_nil {M : MathLib} (c : position) : flatten (tourOrder [] c) = None.
Proof. reflexivity. Qed.

(** ** Gathering the groups *)

Lemma mjoin_cons {A} (l : list A) (ls : list (list A)) : mjoin (l :: ls) = l ++ mjoin ls.
Proof. reflexivity. Qed.

Lemma gather_cons (supercluster : ClusterIndex) (z : Z) (m : Limit)
    (c : Feature) (rest : list Feature) (n : nat) :
  gather supercluster z m (c :: rest) n =
    match snd (expand supercluster z m c) with
    | [] => None
    | f0 :: _ =>
        let g := mkClusterData (fst (expand supercluster z m c)) (feat_coordinates f0)
                   (drawn supercluster z m c) None in
        let n' := (n + length (snd (expand supercluster z m c)))%nat in
        if reached n' m then Some [g]
        else cons g <$> gather supercluster z m rest n'
    end.
Proof.
  cbn [gather]. unfold drawn. by destruct (expand supercluster z m c) as [cid [| f0 fs]].
Qed.



(** Without a cap the loop visits every cluster. *)
Lemma gather_unbounded (supercluster : ClusterIndex) (z : Z)
    (clusters : list Feature) (n : nat) :
  Forall (fun c => snd (expand supercluster z Infinity c) <> []) clusters ->
  exists gs, gather supercluster z Infinity clusters n = Some gs
             /\ apartmentIds <$> gs = drawn supercluster z Infinity <$> clusters.
Proof.
  revert n. induction clusters as [| c rest IH]; intros n Hne.
  - by exists [].
  - apply Forall_cons in Hne as [Hc Hrest]. rewrite gather_cons.
    destruct (snd (expand supercluster z Infinity c)) as [| f0 fs] eqn:E; [done |].
    cbn zeta. cbn [reached].
    destruct (IH (n + length (f0 :: fs))%nat Hrest) as (gs & -> & Hgs).
    eexists. split; [reflexivity |]. by rewrite !fmap_cons, Hgs.
Qed.

(** An expansion is one feature, or what [getLeaves] returned. *)
Lemma expand_length (supercluster : ClusterIndex) (z : Z) (k : Z) (c : Feature) :
  0 < k ->
  (forall cid z', Z.of_nat (length (getLeaves supercluster cid z' (Finite k))) <= k) ->
  Z.of_nat (length (snd (expand supercluster z (Finite k) c))) <= k.
Proof.
  intros Hk Hleaves. unfold expand.
  destruct (feat_properties c) as [p |]; [destruct (cluster p) |]; simpl; auto; lia.
Qed.

(** The loop leaves after the group that reaches the cap: what was
    gathered before that group is below the cap. *)
Lemma gather_bound (supercluster : ClusterIndex) (z : Z) (k : Z)
    (clusters : list Feature) (n : nat) (gs : list ClusterData) :
  0 < k ->
  (forall cid z', Z.of_nat (length (getLeaves supercluster cid z' (Finite k))) <= k) ->
  Z.of_nat n < k ->
  gather supercluster z (Finite k) clusters n = Some gs ->
  Z.of_nat (n + length (mjoin (apartmentIds <$> gs))) <= 2 * k - 1.
Proof.
  intros Hk Hleaves. revert n gs.
  induction clusters as [| c rest IH]; intros n gs Hn.
  - intros [= <-]. simpl. lia.
  - rewrite gather_cons.
    pose proof (expand_length supercluster z k c Hk Hleaves) as Hc.
    unfold drawn. revert Hc.
    destruct (snd (expand supercluster z (Finite k) c)) as [| f0 fs] eqn:E; [done |].
    intros Hc. cbn zeta. destruct (reached _ _) eqn:R.
    + intros [= <-]. simpl. rewrite app_nil_r, length_fmap. simpl in *. lia.
    + destruct (gather supercluster z (Finite k) rest _) as [gs' |] eqn:G; [| done].
      intros [= <-]. simpl in R. apply Z.leb_gt in R.
      specialize (IH _ _ R G).
      rewrite fmap_cons, mjoin_cons, length_app. cbn [apartmentIds].
      cbn [length]. change (list_fmap _ _ feat_i fs) with (feat_i <$> fs).
      rewrite length_fmap. cbn [length] in Hc. lia.
Qed.

(** *** The revision with [geoSpiralSort] *)

Lemma pushUntil_bound (k : Z) (fs : list Feature) (n : nat) :
  Z.of_nat n < k ->
  snd (GeoSpiral.pushUntil (Finite k) fs n)
    = (n + length (fst (GeoSpiral.pushUntil (Finite k) fs n)))%nat
  /\ Z.of_nat (snd (GeoSpiral.pushUntil (Finite k) fs n)) <= k.
Proof.
  revert n. induction fs as [| f fs IH]; intros n Hn; simpl.
  - split; lia.
  - destruct (k <=? Z.of_nat (S n)) eqn:R; simpl.
    + split; lia.
    + apply Z.leb_gt in R. destruct (IH (S n) R) as [E L].
      destruct (GeoSpiral.pushUntil (Finite k) fs (S n)) as [ids n']. simpl in *.
      split; lia.
Qed.

Lemma geoSpiral_gather_bound (supercluster : ClusterIndex) (z : Z) (k : Z)
    (clusters : list Feature) (n : nat) (gs : list ClusterData) :
  Z.of_nat n < k ->
  GeoSpiral.gather supercluster z (Finite k) clusters n = Some gs ->
  Z.of_nat (n + length (mjoin (apartmentIds <$> gs))) <= k.
Proof.
  revert n gs. induction clusters as [| c rest IH]; intros n gs Hn.
  - intros [= <-]. simpl. lia.
  - cbn [GeoSpiral.gather].
    destruct (expand supercluster z (Finite k) c) as [cid [| f0 fs]]; [done |].
    destruct (pushUntil_bound k (f0 :: fs) n Hn) as [E L].
    destruct (GeoSpiral.pushUntil (Finite k) (f0 :: fs) n) as [ids n'].
    simpl in E, L. destruct (reached n' (Finite k)) eqn:R.
    + intros [= <-]. simpl. rewrite app_nil_r. lia.
    + destruct (GeoSpiral.gather supercluster z (Finite k) rest n') as [gs' |] eqn:G;
        [| done].
      intros [= <-]. simpl in R. apply Z.leb_gt in R.
      specialize (IH _ _ R G).
      rewrite fmap_cons, mjoin_cons, length_app. cbn [apartmentIds]. lia.
Qed.

(** ** The point list *)

Section PointList.
Context {M : MathLib}.
Variable w : Worker.
Variable params : getPointListDataParameters.

Let z := effectiveZoom params.
Let m := effectiveMaxCount (maxCount params).
Let c := default (getBboxArrCenter (bounds params)) (center params).

Lemma getPointListData_unknown :
  _geoJSONIndexes w !! source params = None ->
  getPointListData w params = Returned (Call None (Some (Plain Result.empty))).
Proof. unfold getPointListData. by intros ->. Qed.

Lemma getPointListData_tiles (v : TileIndex) :
  _geoJSONIndexes w !! source params = Some (GeoJSONVT v) ->
  getPointListData w params = Returned (Call None (Some (Stringified Result.empty))).
Proof. unfold getPointListData. by intros ->. Qed.

(** The call on a cluster index, without the tour. *)
Lemma getPointListData_sorted (supercluster : ClusterIndex) (gs : list ClusterData) :
  _geoJSONIndexes w !! source params = Some (Supercluster supercluster) ->
  gather supercluster z m (getClusters supercluster (bounds params) z) 0 = Some gs ->
  travellingSalesmanApprox params = false ->
  getPointListData w params
  = Returned (Call None (Some (Plain (resultOf (distanceSort gs c))))).
Proof.
  intros Hidx Hg Htsp. unfold getPointListData. rewrite Hidx.
  fold z m c. rewrite Hg, Htsp. by rewrite flatten_resultOf.
Qed.

(** The call on a cluster index, along the tour. *)
Lemma getPointListData_toured (supercluster : ClusterIndex) (gs : list ClusterData) :
  (forall q : Q, (0 <= q)%Q -> (0 <= Math_sqrt q)%Q) ->
  _geoJSONIndexes w !! source params = Some (Supercluster supercluster) ->
  gather supercluster z m (getClusters supercluster (bounds params) z) 0 = Some gs ->
  travellingSalesmanApprox params = true ->
  gs <> [] ->
  exists order,
    order ≡ₚ distanceSort gs c
    /\ getPointListData w params = Returned (Call None (Some (Plain (resultOf order)))).
Proof.
  intros Hsqrt Hidx Hg Htsp Hne.
  destruct (tourOrder_Permutation (distanceSort gs c) c Hsqrt) as (order & Ho & HP).
  { intros E. apply (f_equal length) in E. rewrite distanceSort_length in E.
    by destruct gs. }
  exists order. split; [done |].
  unfold getPointListData. rewrite Hidx.
  fold z m c. rewrite Hg, Htsp, Ho. by rewrite flatten_resultOf.
Qed.

(** Every result comes from the groups that were gathered, in some
    order. *)
Lemma getPointListData_inv (r : Result.t) :
  (forall q : Q, (0 <= q)%Q -> (0 <= Math_sqrt q)%Q) ->
  getPointListData w params = Returned (Call None (Some (Plain r))) ->
  (_geoJSONIndexes w !! source params = None /\ r = Result.empty)
  \/ exists supercluster gs order,
       _geoJSONIndexes w !! source params = Some (Supercluster supercluster)
       /\ gather supercluster z m (getClusters supercluster (bounds params) z) 0 = Some gs
       /\ order ≡ₚ distanceSort gs c
       /\ (travellingSalesmanApprox params = false -> order = distanceSort gs c)
       /\ r = resultOf order.
Proof.
  intros Hsqrt Hr.
  destruct (_geoJSONIndexes w !! source params) as [[supercluster | v] |] eqn:Hidx.
  - right.
    destruct (gather supercluster z m (getClusters supercluster (bounds params) z) 0)
      as [gs |] eqn:Hg.
    + destruct (travellingSalesmanApprox params) eqn:Htsp.
      * destruct gs as [| g gs].
        { exfalso. unfold getPointListData in Hr. rewrite Hidx in Hr.
          fold z m c in Hr. rewrite Hg, Htsp in Hr. discriminate Hr. }
        destruct (getPointListData_toured supercluster (g :: gs))
          as (order & HP & E); try done.
        rewrite E in Hr. injection Hr as <-.
        exists supercluster, (g :: gs), order. by split_and!.
      * rewrite (getPointListData_sorted supercluster gs) in Hr by done.
        injection Hr as <-.
        exists supercluster, gs, (distanceSort gs c). by split_and!.
    + exfalso. unfold getPointListData in Hr. rewrite Hidx in Hr.
      fold z m c in Hr. by rewrite Hg in Hr.
  - rewrite (getPointListData_tiles v Hidx) in Hr. discriminate Hr.
  - left. rewrite (getPointListData_unknown Hidx) in Hr. by injection Hr as <-.
Qed.

(** Along the tour, a query that gathers no group dies: the path of no
    point is [[undefined]], and the flattening reads [apartmentIds] off
    [undefined]. *)
Lemma getPointListData_tour_of_nothing (supercluster : ClusterIndex) :
  _geoJSONIndexes w !! source params = Some (Supercluster supercluster) ->
  gather supercluster z m (getClusters supercluster (bounds params) z) 0 = Some [] ->
  travellingSalesmanApprox params = true ->
  getPointListData w params = Thrown.
Proof.
  intros Hidx Hg Htsp. unfold getPointListData. rewrite Hidx.
  fold z m c. by rewrite Hg, Htsp.
Qed.

Lemma resultOf_identifiers (gs order : list ClusterData) :
  order ≡ₚ distanceSort gs c ->
  Result.apartmentIds (resultOf order) ≡ₚ mjoin (apartmentIds <$> gs).
Proof.
  intros HP. simpl. by rewrite HP, distanceSort_apartmentIds.
Qed.

End PointList.

(** ** Geometry normalisation *)

Module RewindFacts.
Import Rewind.

Lemma cross_swap (p q : position) : (cross q p == - cross p q)%Q.
Proof. unfold cross. ring. Qed.

Lemma chain_cons_cons (p q : position) (l : list position) :
  chain (p :: q :: l) = (cross p q + chain (q :: l))%Q.
Proof. reflexivity. Qed.

Lemma chain_snoc (l : list position) (a b : position) :
  (chain ((l ++ [a]) ++ [b]) == chain (l ++ [a]) + cross a b)%Q.
Proof.
  induction l as [| p l IH].
  - simpl. ring.
  - destruct l as [| q l].
    + simpl. ring.
    + change (chain (p :: (((q :: l) ++ [a]) ++ [b]))
              == chain (p :: ((q :: l) ++ [a])) + cross a b)%Q.
      simpl app at 1 3. rewrite !chain_cons_cons.
      simpl app in IH. rewrite IH. ring.
Qed.

Lemma chain_reverse (l : list position) : (chain (reverse l) == - chain l)%Q.
Proof.
  induction l as [| p l IH]; [reflexivity |].
  destruct l as [| q l]; [reflexivity |].
  rewrite reverse_cons, (reverse_cons l q), chain_snoc, <- reverse_cons, IH.
  rewrite chain_cons_cons, cross_swap. ring.
Qed.

Lemma signedArea_reverse (r : ring) : (signedArea (reverse r) == - signedArea r)%Q.
Proof.
  unfold signedArea, first_position, last_position.
  rewrite chain_reverse, head_reverse, last_reverse, cross_swap. ring.
Qed.

Lemma Qltb_proper (a a' b b' : Q) : (a == a')%Q -> (b == b')%Q -> Qltb a b = Qltb a' b'.
Proof. intros Ha Hb. unfold Qltb. by rewrite Ha, Hb. Qed.

Lemma rewindRing_idempotent (r : ring) (dir : bool) :
  rewindRing (rewindRing r dir) dir = rewindRing r dir.
Proof.
  unfold rewindRing. destruct dir.
  - destruct (Qltb 0 (signedArea r)) eqn:E; [| by rewrite E].
    rewrite (Qltb_proper 0 0 _ (- signedArea r)); [| reflexivity | apply signedArea_reverse].
    apply Qltb_true in E.
    replace (Qltb 0 (- signedArea r)) with false; [done |].
    symmetry. apply Qltb_false. lra.
  - destruct (Qltb (signedArea r) 0) eqn:E; [| by rewrite E].
    rewrite (Qltb_proper _ (- signedArea r) 0 0); [| apply signedArea_reverse | reflexivity].
    apply Qltb_true in E.
    replace (Qltb (- signedArea r) 0) with false; [done |].
    symmetry. apply Qltb_false. lra.
Qed.

Lemma rewindRings_idempotent (rings : list ring) (outer : bool) :
  rewindRings (rewindRings rings outer) outer = rewindRings rings outer.
Proof.
  destruct rings as [| r holes]; [done |]. simpl.
  rewrite rewindRing_idempotent. f_equal.
  rewrite map_map. apply map_ext. intros h. apply rewindRing_idempotent.
Qed.

Lemma rewindGeometry_idempotent (g : Geometry) (outer : bool) :
  rewindGeometry (rewindGeometry g outer) outer = rewindGeometry g outer.
Proof.
  destruct g; simpl; try done.
  - by rewrite rewindRings_idempotent.
  - f_equal. rewrite map_map. apply map_ext. intros rs. apply rewindRings_idempotent.
Qed.

Lemma rewindFeature_idempotent (f : GeoFeature) (outer : bool) :
  rewindFeature (rewindFeature f outer) outer = rewindFeature f outer.
Proof. unfold rewindFeature. simpl. by rewrite rewindGeometry_idempotent. Qed.

End RewindFacts.

(** C9. Normalising the winding of an already normalised document changes
    nothing: [rewind (rewind doc) = rewind doc], whichever winding is the
    canonical one. *)
Theorem rewind_idempotent (d : GeoJSON) (outer : bool) :
  Rewind.rewind (Rewind.rewind d outer) outer = Rewind.rewind d outer.
Proof.
  destruct d as [fs | f | g]; simpl; f_equal.
  - rewrite map_map. apply map_ext. intros f. apply RewindFacts.rewindFeature_idempotent.
  - apply RewindFacts.rewindFeature_idempotent.
  - apply RewindFacts.rewindGeometry_idempotent.
Qed.

(** ** The demonstration data *)

Lemma sqrt_down_nonneg (q : Q) :
  (0 <= q)%Q -> (0 <= Math_sqrt (MathLib := Demo.math) q)%Q.
Proof.
  intros _. unfold Demo.sqrt_down, Qle. simpl.
  rewrite Z.mul_1_r. apply Z.sqrt_nonneg.
Qed.

Lemma demo_index_limit (k cid z : Z) :
  0 < k -> Z.of_nat (length (getLeaves Demo.index cid z (Finite k))) <= k.
Proof.
  intros Hk. simpl. destruct (cid =? 100); simpl; [| lia].
  rewrite length_take. simpl. lia.
Qed.

(** ** The revision with [geoSpiralSort], as a whole *)

Lemma geoSpiral_getPointListData_inv {M : MathLib} (w : Worker)
    (params : getPointListDataParameters) (supercluster : ClusterIndex) (r : Result.t) :
  _geoJSONIndexes w !! source params = Some (Supercluster supercluster) ->
  GeoSpiral.getPointListData w params = Returned (Call None (Some (Plain r))) ->
  exists gs,
    GeoSpiral.gather supercluster (effectiveZoom params)
      (effectiveMaxCount (maxCount params))
      (getClusters supercluster (bounds params) (effectiveZoom params)) 0 = Some gs
    /\ Result.apartmentIds r ≡ₚ mjoin (apartmentIds <$> gs).
Proof.
  intros Hidx. unfold GeoSpiral.getPointListData. rewrite Hidx.
  destruct (GeoSpiral.gather _ _ _ _ _) as [gs |]; [| done].
  rewrite flatten_resultOf. intros [= <-].
  exists gs. split; [done |]. simpl.
  unfold GeoSpiral.geoSpiralSort. rewrite Array_sort_Permutation.
  apply (reflexive_eq (R := Permutation)). f_equal.
  induction gs as [| g gs IH]; simpl; [done | by f_equal].
Qed.

(** ** The properties of the specification *)

(** C1 (amended).  With [maxCount] set to a positive [k] and an index whose
    [getLeaves] honours its limit, every aggregate is expanded with the
    limit [k] itself and the loop leaves after the group that makes the
    running total reach [k]: the list of identifiers has at most
    [2 * k - 1] entries.  In the revision with [geoSpiralSort], whose
    inner loop leaves a cluster as soon as the total reaches [k], it has at
    most [k]. *)
Theorem maxCount_bounds {M : MathLib} (w : Worker) (params : getPointListDataParameters)
    (supercluster : ClusterIndex) (k : Z) :
  (forall q : Q, (0 <= q)%Q -> (0 <= Math_sqrt q)%Q) ->
  _geoJSONIndexes w !! source params = Some (Supercluster supercluster) ->
  maxCount params = Some k ->
  0 < k ->
  (forall cid z, Z.of_nat (length (getLeaves supercluster cid z (Finite k))) <= k) ->
  (forall r, getPointListData w params = Returned (Call None (Some (Plain r))) ->
             Z.of_nat (length (Result.apartmentIds r)) <= 2 * k - 1)
  /\ (forall r, GeoSpiral.getPointListData w params = Returned (Call None (Some (Plain r))) ->
                Z.of_nat (length (Result.apartmentIds r)) <= k).
Proof.
  intros Hsqrt Hidx Hmax Hk Hleaves.
  assert (Hm : effectiveMaxCount (maxCount params) = Finite k).
  { rewrite Hmax. simpl. destruct (k =? 0) eqn:E; [lia | done]. }
  split; intros r Hr.
  - destruct (getPointListData_inv w params r Hsqrt Hr)
      as [[Hnone _] | (sc & gs & order & Hsc & Hg & HP & _ & ->)]; [congruence |].
    rewrite Hidx in Hsc. injection Hsc as <-.
    rewrite (resultOf_identifiers params gs order HP).
    rewrite Hm in Hg. apply gather_bound in Hg; [| done | done | lia].
    simpl in Hg. lia.
  - destruct (geoSpiral_getPointListData_inv w params supercluster r Hidx Hr)
      as (gs & Hg & HP).
    rewrite HP. rewrite Hm in Hg. apply geoSpiral_gather_bound in Hg; [| lia].
    simpl in Hg. lia.
Qed.

(** C1 fails as stated: with [maxCount = 2], a loose point followed by an
    aggregate of three yields three identifiers. *)
Lemma maxCount_exceeded :
  maxCount (Demo.query "points" (Some 2) false) = Some 2
  /\ getPointListData (M := Demo.math) Demo.worker (Demo.query "points" (Some 2) false)
     = Returned (Call None (Some (Plain
         (Result.mk [1; 2; 3] (<[1 := 1]> (<[2 := 100]> (<[3 := 100]> ∅)))))))
  /\ ~ (length [1; 2; 3] <= 2)%nat.
Proof.
  split_and!; [reflexivity | vm_compute; reflexivity | simpl; lia].
Qed.

(** The two bounds for [maxCount = 2] on the demonstration index. *)
Lemma maxCount_bounds_witness :
  (forall r,
      getPointListData (M := Demo.math) Demo.worker (Demo.query "points" (Some 2) false)
      = Returned (Call None (Some (Plain r))) ->
      Z.of_nat (length (Result.apartmentIds r)) <= 2 * 2 - 1)
  /\ (forall r,
        GeoSpiral.getPointListData (M := Demo.math) Demo.worker
          (Demo.query "points" (Some 2) false)
        = Returned (Call None (Some (Plain r))) ->
        Z.of_nat (length (Result.apartmentIds r)) <= 2).
Proof.
  apply (maxCount_bounds (M := Demo.math) Demo.worker
           (Demo.query "points" (Some 2) false) Demo.index 2).
  - exact sqrt_down_nonneg.
  - vm_compute. reflexivity.
  - reflexivity.
  - lia.
  - intros cid z. apply demo_index_limit. lia.
Defined.

(** C4.  For at least one point, [solve()] returns one path that holds
    every index below the number of points exactly once, and for one or
    two points the path is the input order. *)
Theorem solve_is_a_permutation {M : MathLib} (pts : list TSA.point) (c : option TSA.point) :
  (forall q : Q, (0 <= q)%Q -> (0 <= Math_sqrt q)%Q) ->
  (1 <= length pts)%nat ->
  exists path,
    TSA.solve (TSA.create pts c) = [Some <$> path]
    /\ path ≡ₚ seq 0 (length pts)
    /\ ((length pts <= 2)%nat -> path = seq 0 (length pts)).
Proof.
  intros Hsqrt Hn. exists (TSA.tour (TSA.create pts c) 0).
  apply solve_create; [done |]. destruct pts; [simpl in Hn; lia | done].
Qed.

(** The tour of five points, two of them equal. *)
Lemma solve_is_a_permutation_witness :
  exists path,
    TSA.solve (TSA.create (M := Demo.math) Demo.five None) = [Some <$> path]
    /\ path ≡ₚ seq 0 5
    /\ ((5 <= 2)%nat -> path = seq 0 5).
Proof.
  apply (solve_is_a_permutation (M := Demo.math) Demo.five None).
  - exact sqrt_down_nonneg.
  - simpl. lia.
Defined.





(** C10.  A [maxCount] of [0], like an absent one, is no cap: the limit is
    [Infinity], the loop visits every cluster, and the call returns every
    identifier the index holds for the bounding box. *)
Theorem maxCount_zero_is_no_cap {M : MathLib} (w : Worker)
    (params : getPointListDataParameters) (supercluster : ClusterIndex) :
  let z := effectiveZoom params in
  let clusters := getClusters supercluster (bounds params) z in
  (forall q : Q, (0 <= q)%Q -> (0 <= Math_sqrt q)%Q) ->
  _geoJSONIndexes w !! source params = Some (Supercluster supercluster) ->
  maxCount params = Some 0 \/ maxCount params = None ->
  Forall (fun c => snd (expand supercluster z Infinity c) <> []) clusters ->
  (travellingSalesmanApprox params = true -> clusters <> []) ->
  effectiveMaxCount (maxCount params) = Infinity
  /\ exists r,
       getPointListData w params = Returned (Call None (Some (Plain r)))
       /\ Result.apartmentIds r ≡ₚ identifiers supercluster z Infinity clusters.
Proof.
  intros z clusters Hsqrt Hidx Hmax Hne Htsp.
  assert (Hm : effectiveMaxCount (maxCount params) = Infinity)
    by (destruct Hmax as [-> | ->]; reflexivity).
  split; [exact Hm |].
  destruct (gather_unbounded supercluster z clusters 0 Hne) as (gs & Hg & Hids).
  rewrite <- Hm in Hg.
  destruct (travellingSalesmanApprox params) eqn:Et.
  - destruct (getPointListData_toured w params supercluster gs) as (order & HP & E);
      try done.
    { intros ->. destruct clusters; [by apply Htsp | done]. }
    exists (resultOf order). split; [exact E |].
    rewrite (resultOf_identifiers params gs order HP). unfold identifiers.
    by rewrite Hids.
  - exists (resultOf (distanceSort gs
              (default (getBboxArrCenter (bounds params)) (center params)))).
    split; [by apply getPointListData_sorted with supercluster |].
    rewrite (resultOf_identifiers params gs _ (reflexivity _)). unfold identifiers.
    by rewrite Hids.
Qed.

(** [maxCount = 0] on the demonstration index, along the tour. *)
Lemma maxCount_zero_is_no_cap_witness :
  effectiveMaxCount (Some 0) = Infinity
  /\ exists r,
       getPointListData (M := Demo.math) Demo.worker (Demo.query "points" (Some 0) true)
       = Returned (Call None (Some (Plain r)))
       /\ Result.apartmentIds r ≡ₚ [1; 2; 3; 4].
Proof.
  apply (maxCount_zero_is_no_cap (M := Demo.math) Demo.worker
           (Demo.query "points" (Some 0) true) Demo.index).
  - exact sqrt_down_nonneg.
  - vm_compute. reflexivity.
  - left. reflexivity.
  - repeat constructor; vm_compute; discriminate.
  - intros _. vm_compute. discriminate.
Defined.

(** ** The worker state *)

(** C2 (amended).  A tile of a source is Loaded once it has been fetched:
    [reloadTile] then takes the incremental path.  A re-ingest that builds
    its index resets every tile of that source: [reloadTile] takes the
    fresh path.  [removeSource] leaves the markers alone: [reloadTile]
    decides as it did before the removal. *)
Theorem load_state_machine {host : Host} (w : Worker) (params : LoadGeoJSONParameters)
    (d : GeoJSON) (index : GeoJSONIndex) (tile : WorkerTileParameters) :
  loadGeoJSON params = Call None (Some (VObject d)) ->
  buildIndex params (Rewind.rewind d true) = inr index ->
  reloadTile (tileFetched w tile) tile = SuperReloadTile
  /\ (forall u, reloadTile (fst (loadData w params)) (mkTileParams (load_source params) u)
                = LoadTile)
  /\ (forall src, reloadTile (fst (removeSource w src)) tile = reloadTile w tile).
Proof.
  intros Hload Hbuild. split_and!.
  - unfold reloadTile, tileFetched. simpl.
    by rewrite lookup_insert_eq, lookup_insert_eq.
  - intros u. unfold loadData. rewrite Hload. simpl. rewrite Hbuild.
    unfold reloadTile. simpl. by rewrite lookup_insert_eq.
  - reflexivity.
Qed.

(** C2 fails as stated: after [removeSource] the tile that was served is
    still marked, and [reloadTile] takes the incremental path for a source
    that has no index any more. *)
Lemma removeSource_keeps_tiles_loaded :
  reloadTile Demo.served Demo.tile7 = SuperReloadTile
  /\ _geoJSONIndexes (fst (removeSource Demo.served "shapes")) !! "shapes" = None
  /\ reloadTile (fst (removeSource Demo.served "shapes")) Demo.tile7 = SuperReloadTile
  /\ reloadTile (fst (removeSource Demo.served "shapes")) Demo.tile7 <> LoadTile.
Proof. split_and!; [vm_compute; reflexivity .. | vm_compute; discriminate]. Qed.

(** The served worker, re-ingested. *)
Lemma load_state_machine_witness :
  reloadTile (tileFetched Demo.served Demo.tile7) Demo.tile7 = SuperReloadTile
  /\ (forall u,
        reloadTile
          (fst (loadData (host := Demo.host) Demo.served
                  (Demo.ingest "shapes" None (Some (LString "square")) false)))
          (mkTileParams "shapes" u) = LoadTile)
  /\ (forall src,
        reloadTile (fst (removeSource Demo.served src)) Demo.tile7
        = reloadTile Demo.served Demo.tile7).
Proof.
  apply (load_state_machine (host := Demo.host) Demo.served
           (Demo.ingest "shapes" None (Some (LString "square")) false)
           Demo.square (GeoJSONVT Demo.tiles) Demo.tile7).
  - vm_compute. reflexivity.
  - vm_compute. reflexivity.
Defined.

(** C3 (amended).  A request, when present, is what is loaded, whether or
    not literal data comes with it.  Without a request, literal text is
    parsed and a text that does not parse is reported as invalid; without
    a request and without literal text the input is reported as invalid. *)
Theorem loadGeoJSON_sources {host : Host} (params : LoadGeoJSONParameters) :
  (forall r, request params = Some r -> loadGeoJSON params = ajax_getJSON r)
  /\ (forall s, request params = None -> data params = Some (LString s) ->
        loadGeoJSON params =
          match JSON_parse s with
          | inr v => Call None (Some v)
          | inl _ => Call (Some invalid_geojson) None
          end)
  /\ (request params = None -> (forall s, data params <> Some (LString s)) ->
        loadGeoJSON params = Call (Some invalid_geojson) None).
Proof.
  unfold loadGeoJSON. split_and!.
  - by intros r ->.
  - by intros s -> ->.
  - intros -> Hd. destruct (data params) as [[s | d] |]; try done.
    by destruct (Hd s).
Qed.

(** C3 fails as stated: with a request and literal data both present, the
    request is loaded and no error is reported. *)
Lemma request_and_data_both_present :
  let params := Demo.ingest "shapes" (Some (mkRequest "/square.json"))
                  (Some (LString "square")) false in
  request params <> None /\ data params <> None
  /\ loadGeoJSON (host := Demo.host) params = Call None (Some (VObject Demo.square))
  /\ loadGeoJSON (host := Demo.host) params <> Call (Some invalid_geojson) None.
Proof. split_and!; [done | done | reflexivity | discriminate]. Qed.

(** The three ways of handing in the input, on the demonstration host. *)
Lemma loadGeoJSON_sources_witness :
  loadGeoJSON (host := Demo.host)
    (Demo.ingest "shapes" (Some (mkRequest "/square.json")) (Some (LString "square")) false)
  = ajax_getJSON (Host := Demo.host) (mkRequest "/square.json")
  /\ loadGeoJSON (host := Demo.host) (Demo.ingest "shapes" None (Some (LString "oops")) false)
     = Call (Some invalid_geojson) None
  /\ loadGeoJSON (host := Demo.host) (Demo.ingest "shapes" None None false)
     = Call (Some invalid_geojson) None.
Proof.
  split_and!.
  - apply (loadGeoJSON_sources (host := Demo.host)
             (Demo.ingest "shapes" (Some (mkRequest "/square.json"))
                (Some (LString "square")) false)).
    reflexivity.
  - apply (proj1 (proj2 (loadGeoJSON_sources (host := Demo.host)
             (Demo.ingest "shapes" None (Some (LString "oops")) false))) "oops");
      reflexivity.
  - apply (loadGeoJSON_sources (host := Demo.host) (Demo.ingest "shapes" None None false));
      [reflexivity | discriminate].
Defined.

(** C5.  When the builder throws, [loadData] hands the error to the
    callback and the worker is what it was: the index bound to the source
    and its markers of loaded tiles included. *)
Theorem failed_build_leaves_worker {host : Host} (w : Worker)
    (params : LoadGeoJSONParameters) (d : GeoJSON) (err : Error) :
  loadGeoJSON params = Call None (Some (VObject d)) ->
  buildIndex params (Rewind.rewind d true) = inl err ->
  loadData w params = (w, Call (Some err) None).
Proof.
  intros Hload Hbuild. unfold loadData. rewrite Hload. simpl. by rewrite Hbuild.
Qed.

(** A bare point, which the tile builder of the demonstration host refuses. *)
Lemma failed_build_leaves_worker_witness :
  loadData (host := Demo.host) Demo.served
    (Demo.ingest "shapes" None (Some (LString "point")) false)
  = (Demo.served, Call (Some "unsupported") None).
Proof.
  apply (failed_build_leaves_worker (host := Demo.host) Demo.served
           (Demo.ingest "shapes" None (Some (LString "point")) false)
           (BareGeometry (Point (0, 0)%Q)) "unsupported").
  - vm_compute. reflexivity.
  - vm_compute. reflexivity.
Defined.

(** C6, where it holds: a source that is not in the registry, be it after
    [removeSource], gets the empty result object. *)
Lemma getPointListData_after_removeSource {M : MathLib} (w : Worker)
    (params : getPointListDataParameters) :
  getPointListData (fst (removeSource w (source params))) params
  = Returned (Call None (Some (Plain Result.empty))).
Proof.
  apply getPointListData_unknown. simpl. apply lookup_delete_eq.
Qed.

(** C6, where the code departs from it: for a source bound to a tile index
    the callback receives the text of the empty result, not the object. *)
Theorem tile_index_gets_text :
  _geoJSONIndexes Demo.worker !! "shapes" = Some (GeoJSONVT Demo.tiles)
  /\ getPointListData (M := Demo.math) Demo.worker (Demo.query "shapes" None false)
     = Returned (Call None (Some (Stringified Result.empty)))
  /\ getPointListData (M := Demo.math) Demo.worker (Demo.query "shapes" None false)
     <> Returned (Call None (Some (Plain Result.empty))).
Proof. split_and!; [vm_compute; reflexivity .. | vm_compute; discriminate]. Qed.

(* ===================================================================== *)
(** * Part III: further properties of the code *)
(* ===================================================================== *)

(** ** The tour, whatever [Math.sqrt] returns *)

Module TourShape.
Import TSA TSAFacts.

Lemma splice_length (path : list nat) (pos x : nat) :
  length (splice path pos x) = S (length path).
Proof.
  unfold splice. rewrite length_app. cbn [length].
  rewrite length_take, length_drop. lia.
Qed.

Lemma splice_head (path : list nat) (pos x : nat) :
  (1 <= pos)%nat -> path <> [] -> head (splice path pos x) = head path.
Proof.
  intros Hpos Hne. unfold splice.
  destruct path as [| p path]; [done |]. by destruct pos as [| pos]; [lia |].
Qed.

Lemma splice_elem_of (path : list nat) (pos x y : nat) :
  y ∈ splice path pos x <-> y = x \/ y ∈ path.
Proof. by rewrite splice_Permutation, elem_of_cons. Qed.

(** The insertion never goes in front of the path. *)
Lemma step_behind (s : t) (remaining path : list nat) (i : nat) :
  path <> [] ->
  exists pos,
    (1 <= pos)%nat
    /\ step s (remaining, path) i =
         (swap remaining (snd (farthest s path remaining i)) i,
          splice path pos
            (at_index (swap remaining (snd (farthest s path remaining i)) i) i)).
Proof.
  intros Hne. unfold step.
  destruct (cheapest s path _) as [sm ix].
  destruct (ltb _ sm).
  - exists (length path). split; [| done]. destruct path; [done | simpl; lia].
  - exists (ix + 1)%nat. split; [lia | done].
Qed.

Lemma farthest_below (s : t) (path remaining : list nat) (i : nat) :
  (0 < length (points s))%nat ->
  (snd (farthest s path remaining i) < length (points s))%nat.
Proof.
  intros Hn. unfold farthest.
  destruct (farthest_fold_index s path remaining
              (seq i (length (points s) - i)) (Fin (-1), 0%nat)) as [E | E].
  - rewrite E. simpl. lia.
  - apply elem_of_seq in E. lia.
Qed.

Lemma step_shape (s : t) (first i : nat) (st : list nat * list nat) :
  (i < length (points s))%nat ->
  tour_shape (length (points s)) first i st ->
  tour_shape (length (points s)) first (S i) (step s st i).
Proof.
  intros Hi. destruct st as [remaining path].
  intros (Hlen & Hperm & Hhead & Hpl & Hall).
  cbn [fst snd] in Hlen, Hperm, Hhead, Hpl, Hall.
  assert (Hne : path <> []) by (intros ->; discriminate).
  destruct (step_behind s remaining path i Hne) as (pos & Hpos & ->).
  pose proof (farthest_below s path remaining i ltac:(lia)) as Hix.
  set (ix := snd (farthest s path remaining i)) in *.
  assert (Hsw : swap remaining ix i ≡ₚ remaining)
    by (apply swap_Permutation; lia).
  destruct (lookup_lt_is_Some_2 (swap remaining ix i) i) as [x Hx].
  { rewrite swap_length. lia. }
  rewrite (at_index_lookup _ _ _ Hx).
  unfold tour_shape. simpl. split_and!.
  - by rewrite swap_length.
  - by rewrite Hsw.
  - by rewrite splice_head.
  - by rewrite splice_length, Hpl.
  - apply Forall_forall. intros y [-> | Hy]%splice_elem_of.
    + apply list_elem_of_lookup_2 in Hx. rewrite Hsw, Hperm in Hx.
      apply elem_of_seq in Hx. lia.
    + by apply (proj1 (Forall_forall _ _) Hall).
Qed.

Lemma loop_shape (s : t) (first k i : nat) (st : list nat * list nat) :
  (i + k = length (points s))%nat ->
  tour_shape (length (points s)) first i st ->
  tour_shape (length (points s)) first (length (points s)) (fold_left (step s) (seq i k) st).
Proof.
  revert i st. induction k as [| k IH]; intros i st Hk Hs; simpl.
  - by replace (length (points s)) with i at 2 by lia.
  - apply IH; [lia |]. apply step_shape; [lia | done].
Qed.

End TourShape.

(** X1.  For at least one point, and whatever [Math.sqrt] returns, the
    path [solve()] returns has as many entries as there are points, each
    of them an index of a point, and begins with index [0]: no insertion
    goes in front of the seed. *)
Theorem tour_begins_with_seed {M : MathLib} (pts : list TSA.point) (c : option TSA.point) :
  pts <> [] ->
  exists path,
    TSA.solve (TSA.create pts c) = [Some <$> path]
    /\ length path = length pts
    /\ head path = Some 0%nat
    /\ Forall (fun k => (k < length pts)%nat) path.
Proof.
  intros Hne.
  assert (Hn : (0 < length pts)%nat) by (destruct pts; [done | simpl; lia]).
  pose proof (create_points_length pts c) as Hlen.
  pose proof (create_randomPath pts c) as Hrp.
  exists (TSA.tour (TSA.create pts c) 0). split.
  { unfold TSA.solve. rewrite Hrp. destruct (length pts); [lia | done]. }
  unfold TSA.tour.
  destruct (TourShape.loop_shape (TSA.create pts c) 0 (length pts - 1) 1
              (TSA.randomPath (TSA.create pts c), [0%nat]))
    as (_ & _ & Hhead & Hl & Hall).
  - rewrite Hlen. lia.
  - unfold tour_shape. cbn [fst snd]. rewrite Hrp, Hlen, length_seq.
    split_and!; try done. constructor; [lia | constructor].
  - rewrite Hlen in *. by split_and!.
Qed.

(** The five demonstration points. *)
Lemma tour_begins_with_seed_witness :
  exists path,
    TSA.solve (TSA.create (M := Demo.math) Demo.five None) = [Some <$> path]
    /\ length path = 5%nat
    /\ head path = Some 0%nat
    /\ Forall (fun k => (k < 5)%nat) path.
Proof.
  apply (tour_begins_with_seed (M := Demo.math) Demo.five None). discriminate.
Defined.

(** ** The reference frame of the tour *)

Module Frame.
Import TSA.







End Frame.




(** ** The tour of points on a vertical or horizontal line *)

Module Blind.
Import TSA TSAFacts.


Section NoDistance.
Variable s : t.
Hypothesis blind : forall a b, dist s a b = NaN.










End NoDistance.


End Blind.



(** ** The points on a canvas *)





(** ** The parameters of a query *)

(** X5.  The zoom of a query is the floor of the requested zoom clamped
    between [minzoom] and [maxzoom]; it is never below [minzoom], and
    [minzoom] wins when the two bounds are in the wrong order. *)
Theorem effectiveZoom_clamped (params : getPointListDataParameters) :
  minzoom params <= effectiveZoom params
  /\ (minzoom params <= maxzoom params -> effectiveZoom params <= maxzoom params)
  /\ (minzoom params <= Qfloor (zoom params) <= maxzoom params ->
      effectiveZoom params = Qfloor (zoom params)
      /\ (inject_Z (effectiveZoom params) <= zoom params
          < inject_Z (effectiveZoom params + 1))%Q)
  /\ (maxzoom params < minzoom params -> effectiveZoom params = minzoom params).
Proof.
  unfold effectiveZoom. split_and!; try lia.
  intros Hz.
  assert (E : Z.max (Z.min (Qfloor (zoom params)) (maxzoom params)) (minzoom params)
              = Qfloor (zoom params)) by lia.
  rewrite E. split; [done |]. split; [apply Qfloor_le | apply Qlt_floor].
Qed.

(** A zoom of [7/2] between [0] and [16], and bounds in the wrong order. *)
Lemma effectiveZoom_clamped_witness :
  effectiveZoom (mkPointListParams Demo.world (7 # 2) None "points" 0 16 None false) = 3
  /\ effectiveZoom (mkPointListParams Demo.world (7 # 2) None "points" 9 4 None false) = 9.
Proof.
  split.
  - apply (effectiveZoom_clamped
             (mkPointListParams Demo.world (7 # 2) None "points" 0 16 None false)).
    vm_compute. split; discriminate.
  - apply (effectiveZoom_clamped
             (mkPointListParams Demo.world (7 # 2) None "points" 9 4 None false)).
    reflexivity.
Defined.




(** ** The lookup of a point list *)

Lemma pushGroups_keys (gs : list ClusterData) (acc : list Z * gmap Z Z) (id : Z) :
  is_Some (snd (fold_left pushGroup gs acc) !! id)
  <-> id ∈ mjoin (apartmentIds <$> gs) \/ is_Some (snd acc !! id).
Proof.
  revert acc. induction gs as [| g gs IH]; intros acc.
  - simpl. split; [by right | intros [[]%elem_of_nil | ?]; done].
  - cbn [fold_left]. rewrite IH, fmap_cons, mjoin_cons, elem_of_app, pushGroup_lookup.
    destruct (decide (id ∈ apartmentIds g)) as [Hin | Hin].
    + split; [intros _; by left; left | intros _; right; by eexists].
    + tauto.
Qed.

(** X8.  The keys of [clusterLookup] are the identifiers of [apartmentIds]:
    every identifier returned has an entry, and there is no entry for an
    identifier that was not returned. *)
Theorem clusterLookup_keys {M : MathLib} (w : Worker)
    (params : getPointListDataParameters) (r : Result.t) :
  (forall q : Q, (0 <= q)%Q -> (0 <= Math_sqrt q)%Q) ->
  getPointListData w params = Returned (Call None (Some (Plain r))) ->
  forall id, is_Some (Result.clusterLookup r !! id) <-> id ∈ Result.apartmentIds r.
Proof.
  intros Hsqrt Hr id.
  destruct (getPointListData_inv w params r Hsqrt Hr)
    as [[_ ->] | (sc & gs & order & _ & _ & _ & _ & ->)].
  - simpl. rewrite lookup_empty. split; [by intros [] | by intros []%elem_of_nil].
  - simpl. rewrite pushGroups_keys. simpl. rewrite lookup_empty.
    split; [intros [? | []]; done | by left].
Qed.

(** The capped query of the demonstration index. *)
Lemma clusterLookup_keys_witness :
  is_Some ((<[1 := 1]> (<[2 := 100]> (<[3 := 100]> ∅)) : gmap Z Z) !! 2)
  <-> 2 ∈ [1; 2; 3].
Proof.
  assert (Hr : getPointListData (M := Demo.math) Demo.worker
                 (Demo.query "points" (Some 2) false)
               = Returned (Call None (Some (Plain
                   (Result.mk [1; 2; 3] (<[1 := 1]> (<[2 := 100]> (<[3 := 100]> ∅))))))))
    by (vm_compute; reflexivity).
  exact (clusterLookup_keys (M := Demo.math) Demo.worker
           (Demo.query "points" (Some 2) false) _ sqrt_down_nonneg Hr 2).
Defined.

(** ** Queries without aggregates *)






(** ** The tour against the sort *)

Lemma pushGroups_same (gs gs' : list ClusterData) :
  gs ≡ₚ gs' -> NoDup (mjoin (apartmentIds <$> gs)) ->
  snd (fold_left pushGroup gs ([], ∅)) = snd (fold_left pushGroup gs' ([], ∅)).
Proof.
  intros HP Hnd. apply map_eq. intros id.
  assert (Hnd' : NoDup (mjoin (apartmentIds <$> gs'))) by by rewrite <- HP.
  destruct (decide (id ∈ mjoin (apartmentIds <$> gs))) as [Hin | Hin].
  - apply list_elem_of_join in Hin as (l & Hidl & Hl).
    apply list_elem_of_fmap in Hl as (g & -> & Hg).
    rewrite (pushGroups_lookup gs _ g id) by done.
    rewrite (pushGroups_lookup gs' _ g id); [done | done | by rewrite <- HP | done].
  - rewrite !pushGroups_lookup_other; [done | by rewrite <- HP | done].
Qed.

(** X10.  Asking for the tour changes the order only: the identifiers of
    the toured answer are those of the sorted answer, rearranged, and when
    they are distinct the two answers carry the same [clusterLookup]. *)
Theorem tour_only_reorders {M : MathLib} (w : Worker)
    (params : getPointListDataParameters) (r r' : Result.t) :
  (forall q : Q, (0 <= q)%Q -> (0 <= Math_sqrt q)%Q) ->
  getPointListData w (withTour false params) = Returned (Call None (Some (Plain r))) ->
  getPointListData w (withTour true params) = Returned (Call None (Some (Plain r'))) ->
  Result.apartmentIds r' ≡ₚ Result.apartmentIds r
  /\ (NoDup (Result.apartmentIds r) -> Result.clusterLookup r' = Result.clusterLookup r).
Proof.
  intros Hsqrt Hr Hr'.
  destruct (getPointListData_inv _ _ r Hsqrt Hr)
    as [[Hnone ->] | (sc & gs & order & Hsc & Hg & HP & _ & ->)];
  destruct (getPointListData_inv _ _ r' Hsqrt Hr')
    as [[Hnone' ->] | (sc' & gs' & order' & Hsc' & Hg' & HP' & _ & ->)];
    try (simpl in *; congruence).
  - done.
  - simpl in Hsc, Hsc', Hg, Hg', HP, HP'.
    rewrite Hsc in Hsc'. injection Hsc' as <-.
    change (effectiveZoom (withTour true params)) with (effectiveZoom params) in Hg'.
    change (effectiveZoom (withTour false params)) with (effectiveZoom params) in Hg.
    rewrite Hg in Hg'. injection Hg' as <-.
    assert (HPP : order' ≡ₚ order) by by rewrite HP, HP'.
    split; [simpl; by rewrite HPP |].
    simpl. intros Hnd. symmetry. by apply pushGroups_same.
Qed.

(** The uncapped query of the demonstration index, sorted and toured. *)
Lemma tour_only_reorders_witness :
  [1; 2; 3; 4] ≡ₚ [1; 2; 3; 4]
  /\ (NoDup [1; 2; 3; 4] ->
      (<[1 := 1]> (<[2 := 100]> (<[3 := 100]> (<[4 := 100]> ∅))) : gmap Z Z)
      = <[1 := 1]> (<[2 := 100]> (<[3 := 100]> (<[4 := 100]> ∅)))).
Proof.
  assert (Hr : forall b,
             getPointListData (M := Demo.math) Demo.worker
               (withTour b (Demo.query "points" None false))
             = Returned (Call None (Some (Plain
                 (Result.mk [1; 2; 3; 4]
                    (<[1 := 1]> (<[2 := 100]> (<[3 := 100]> (<[4 := 100]> ∅)))))))))
    by (intros []; vm_compute; reflexivity).
  exact (tour_only_reorders (M := Demo.math) Demo.worker
           (Demo.query "points" None false) _ _ sqrt_down_nonneg (Hr false) (Hr true)).
Defined.

(** ** What the cap lets through *)

(** Below the cap the loop visits every cluster. *)
Lemma gather_below_cap (supercluster : ClusterIndex) (z k : Z)
    (clusters : list Feature) (n : nat) (gs : list ClusterData) :
  gather supercluster z (Finite k) clusters n = Some gs ->
  Z.of_nat (n + length (mjoin (apartmentIds <$> gs))) < k ->
  apartmentIds <$> gs = drawn supercluster z (Finite k) <$> clusters.
Proof.
  revert n gs. induction clusters as [| c rest IH]; intros n gs.
  - by intros [= <-].
  - rewrite gather_cons.
    destruct (snd (expand supercluster z (Finite k) c)) as [| f0 fs] eqn:E; [done |].
    cbn zeta. destruct (reached _ _) eqn:R.
    + intros [= <-]. rewrite fmap_cons, mjoin_cons, length_app. cbn [apartmentIds].
      unfold drawn at 1. rewrite E, length_fmap.
      simpl in R. apply Z.leb_le in R. cbn [fmap list_fmap mjoin length]. lia.
    + destruct (gather supercluster z (Finite k) rest _) as [gs' |] eqn:G; [| done].
      intros [= <-]. rewrite !fmap_cons, mjoin_cons, length_app. cbn [apartmentIds].
      intros Hlt. f_equal. apply (IH _ _ G).
      unfold drawn at 1 in Hlt. rewrite E, length_fmap in Hlt. lia.
Qed.

(** X11.  With [maxCount] set to a positive [k], an answer of fewer than
    [k] identifiers is complete: it holds every identifier the index has
    for the bounding box.  The cap never makes the answer shorter than the
    supply allows. *)
Theorem short_answer_is_complete {M : MathLib} (w : Worker)
    (params : getPointListDataParameters) (supercluster : ClusterIndex)
    (k : Z) (r : Result.t) :
  let z := effectiveZoom params in
  (forall q : Q, (0 <= q)%Q -> (0 <= Math_sqrt q)%Q) ->
  _geoJSONIndexes w !! source params = Some (Supercluster supercluster) ->
  maxCount params = Some k ->
  0 < k ->
  getPointListData w params = Returned (Call None (Some (Plain r))) ->
  Z.of_nat (length (Result.apartmentIds r)) < k ->
  Result.apartmentIds r
  ≡ₚ identifiers supercluster z (Finite k) (getClusters supercluster (bounds params) z).
Proof.
  intros z Hsqrt Hidx Hmax Hk Hr Hshort.
  assert (Hm : effectiveMaxCount (maxCount params) = Finite k).
  { rewrite Hmax. simpl. destruct (k =? 0) eqn:E; [lia | done]. }
  destruct (getPointListData_inv w params r Hsqrt Hr)
    as [[Hnone _] | (sc & gs & order & Hsc & Hg & HP & _ & ->)]; [congruence |].
  rewrite Hidx in Hsc. injection Hsc as <-.
  rewrite (resultOf_identifiers params gs order HP) in Hshort |- *.
  rewrite Hm in Hg.
  pose proof (gather_below_cap _ _ _ _ _ _ Hg ltac:(simpl; lia)) as E.
  unfold identifiers. subst z. by rewrite <- E.
Qed.

(** A cap of [9] on the demonstration index, which holds four points. *)
Lemma short_answer_is_complete_witness :
  [1; 2; 3; 4] ≡ₚ identifiers Demo.index 3 (Finite 9) (getClusters Demo.index Demo.world 3).
Proof.
  assert (Hr : getPointListData (M := Demo.math) Demo.worker
                 (Demo.query "points" (Some 9) false)
               = Returned (Call None (Some (Plain
                   (Result.mk [1; 2; 3; 4]
                      (<[1 := 1]> (<[2 := 100]> (<[3 := 100]> (<[4 := 100]> ∅)))))))))
    by (vm_compute; reflexivity).
  exact (short_answer_is_complete (M := Demo.math) Demo.worker
           (Demo.query "points" (Some 9) false) Demo.index 9 _
           sqrt_down_nonneg eq_refl eq_refl eq_refl Hr eq_refl).
Defined.

(** *** The revision with [geoSpiralSort] *)

Lemma pushUntil_take (k : Z) (fs : list Feature) (n : nat) :
  Z.of_nat n < k ->
  GeoSpiral.pushUntil (Finite k) fs n
  = (feat_i <$> take (Z.to_nat k - n) fs,
     (n + length (take (Z.to_nat k - n) fs))%nat).
Proof.
  revert n. induction fs as [| f fs IH]; intros n Hn.
  - simpl. rewrite take_nil. simpl. f_equal. lia.
  - cbn [GeoSpiral.pushUntil reached].
    replace (Z.to_nat k - n)%nat with (S (Z.to_nat k - S n)) by lia.
    cbn [take fmap list_fmap length].
    destruct (k <=? Z.of_nat (S n)) eqn:R.
    + apply Z.leb_le in R. replace (Z.to_nat k - S n)%nat with 0%nat by lia.
      rewrite take_0. simpl. f_equal. lia.
    + apply Z.leb_gt in R. rewrite (IH (S n) R). f_equal. lia.
Qed.

Lemma geoSpiral_gather_take (supercluster : ClusterIndex) (z k : Z)
    (clusters : list Feature) (n : nat) (gs : list ClusterData) :
  Z.of_nat n < k ->
  GeoSpiral.gather supercluster z (Finite k) clusters n = Some gs ->
  mjoin (apartmentIds <$> gs)
  = take (Z.to_nat k - n) (identifiers supercluster z (Finite k) clusters).
Proof.
  revert n gs. induction clusters as [| c rest IH]; intros n gs Hn.
  - intros [= <-]. unfold identifiers. simpl. by destruct (Z.to_nat k - n)%nat.
  - cbn [GeoSpiral.gather]. unfold identifiers. rewrite fmap_cons, mjoin_cons.
    unfold drawn at 1.
    destruct (expand supercluster z (Finite k) c) as [cid [| f0 fs]]; [done |].
    rewrite (pushUntil_take k (f0 :: fs) n Hn). cbn [snd].
    set (K := (Z.to_nat k - n)%nat).
    destruct (reached _ _) eqn:R.
    + intros [= <-]. rewrite fmap_cons, mjoin_cons. cbn [apartmentIds fmap mjoin].
      rewrite app_nil_r. simpl in R. apply Z.leb_le in R.
      rewrite take_app_le; [by rewrite fmap_take |].
      rewrite length_fmap. rewrite length_take in R. lia.
    + destruct (GeoSpiral.gather supercluster z (Finite k) rest _) as [gs' |] eqn:G;
        [| done].
      intros [= <-]. simpl in R. apply Z.leb_gt in R.
      rewrite fmap_cons, mjoin_cons. cbn [apartmentIds].
      rewrite (IH _ _ R G). rewrite length_take in R |- *.
      assert (Hall : (length (f0 :: fs) <= K)%nat) by lia.
      rewrite (take_ge (f0 :: fs)) by done.
      rewrite take_app_ge by (rewrite length_fmap; lia).
      rewrite length_fmap. do 2 f_equal. unfold identifiers. lia.
Qed.

(** X12.  In the revision with [geoSpiralSort] and with [maxCount] set to
    a positive [k], the answer holds exactly the first [k] identifiers the
    index hands out for the bounding box, in some order: all of them when
    there are fewer than [k]. *)
Theorem geoSpiral_takes_the_first {M : MathLib} (w : Worker)
    (params : getPointListDataParameters) (supercluster : ClusterIndex)
    (k : Z) (r : Result.t) :
  let z := effectiveZoom params in
  _geoJSONIndexes w !! source params = Some (Supercluster supercluster) ->
  maxCount params = Some k ->
  0 < k ->
  GeoSpiral.getPointListData w params = Returned (Call None (Some (Plain r))) ->
  Result.apartmentIds r
  ≡ₚ take (Z.to_nat k)
          (identifiers supercluster z (Finite k)
             (getClusters supercluster (bounds params) z)).
Proof.
  intros z Hidx Hmax Hk Hr.
  assert (Hm : effectiveMaxCount (maxCount params) = Finite k).
  { rewrite Hmax. simpl. destruct (k =? 0) eqn:E; [lia | done]. }
  destruct (geoSpiral_getPointListData_inv w params supercluster r Hidx Hr)
    as (gs & Hg & HP).
  rewrite HP. rewrite Hm in Hg.
  assert (H0 : Z.of_nat 0 < k) by (simpl; lia).
  rewrite (geoSpiral_gather_take _ _ _ _ _ _ H0 Hg).
  by rewrite Nat.sub_0_r.
Qed.

(** A cap of [2] on the demonstration index. *)
Lemma geoSpiral_takes_the_first_witness :
  [1; 2] ≡ₚ take 2 (identifiers Demo.index 3 (Finite 2)
                      (getClusters Demo.index Demo.world 3)).
Proof.
  assert (Hr : GeoSpiral.getPointListData (M := Demo.math) Demo.worker
                 (Demo.query "points" (Some 2) false)
               = Returned (Call None (Some (Plain
                   (Result.mk [1; 2] (<[1 := 1]> (<[2 := 100]> ∅)))))))
    by (vm_compute; reflexivity).
  exact (geoSpiral_takes_the_first (M := Demo.math) Demo.worker
           (Demo.query "points" (Some 2) false) Demo.index 2 _
           eq_refl eq_refl eq_refl Hr).
Defined.

(** *** A cap that is not reached, a cap below zero *)

Lemma gather_cap_unreached (supercluster : ClusterIndex) (z k : Z)
    (clusters : list Feature) (n : nat) :
  Forall (fun c => expand supercluster z (Finite k) c = expand supercluster z Infinity c)
         clusters ->
  Z.of_nat (n + length (identifiers supercluster z Infinity clusters)) < k ->
  gather supercluster z (Finite k) clusters n = gather supercluster z Infinity clusters n.
Proof.
  revert n. induction clusters as [| c rest IH]; intros n Hsame Hlt; [done |].
  apply Forall_cons in Hsame as [Hc Hrest].
  rewrite !gather_cons. unfold drawn. rewrite Hc.
  unfold identifiers in Hlt. rewrite fmap_cons, mjoin_cons, length_app in Hlt.
  unfold drawn at 1 in Hlt. rewrite length_fmap in Hlt.
  destruct (snd (expand supercluster z Infinity c)) as [| f0 fs]; [done |].
  cbn zeta. cbn [reached].
  replace (k <=? Z.of_nat (n + length (f0 :: fs))) with false
    by (symmetry; apply Z.leb_gt; lia).
  rewrite IH; [done | done |]. unfold identifiers. lia.
Qed.

(** X13.  A positive cap above the number of identifiers the index holds
    for the bounding box changes nothing, provided the index answers
    [getLeaves] under that limit as it does without a limit: the call is
    the call without [maxCount]. *)
Theorem unreached_cap_is_no_cap {M : MathLib} (w : Worker)
    (params : getPointListDataParameters) (supercluster : ClusterIndex) (k : Z) :
  let z := effectiveZoom params in
  let clusters := getClusters supercluster (bounds params) z in
  _geoJSONIndexes w !! source params = Some (Supercluster supercluster) ->
  maxCount params = Some k ->
  Forall (fun c => expand supercluster z (Finite k) c = expand supercluster z Infinity c)
         clusters ->
  Z.of_nat (length (identifiers supercluster z Infinity clusters)) < k ->
  getPointListData w params = getPointListData w (withMaxCount None params).
Proof.
  intros z clusters Hidx Hmax Hsame Hlt.
  assert (Hm : effectiveMaxCount (maxCount params) = Finite k).
  { rewrite Hmax. simpl. destruct (k =? 0) eqn:E; [lia | done]. }
  unfold getPointListData. cbn [withMaxCount source bounds center travellingSalesmanApprox
                                 maxCount effectiveMaxCount].
  change (effectiveZoom (withMaxCount None params)) with z.
  fold z. rewrite Hidx, Hm. fold clusters.
  by rewrite (gather_cap_unreached supercluster z k clusters 0 Hsame).
Qed.

(** A cap of [9] on the four points of the demonstration index. *)
Lemma unreached_cap_is_no_cap_witness :
  getPointListData (M := Demo.math) Demo.worker (Demo.query "points" (Some 9) true)
  = getPointListData (M := Demo.math) Demo.worker (Demo.query "points" None true).
Proof.
  apply (unreached_cap_is_no_cap (M := Demo.math) Demo.worker
           (Demo.query "points" (Some 9) true) Demo.index 9).
  - vm_compute. reflexivity.
  - reflexivity.
  - repeat constructor.
  - vm_compute. reflexivity.
Defined.

(** X14.  A [maxCount] below zero stops the loop after the first cluster
    of the index: the answer is the expansion of that cluster alone,
    whole, each identifier looked up to that cluster. *)
Theorem negative_cap_keeps_first_group {M : MathLib} (w : Worker)
    (params : getPointListDataParameters) (supercluster : ClusterIndex)
    (k : Z) (c : Feature) (rest : list Feature) :
  let z := effectiveZoom params in
  (forall q : Q, (0 <= q)%Q -> (0 <= Math_sqrt q)%Q) ->
  _geoJSONIndexes w !! source params = Some (Supercluster supercluster) ->
  maxCount params = Some k ->
  k < 0 ->
  getClusters supercluster (bounds params) z = c :: rest ->
  snd (expand supercluster z (Finite k) c) <> [] ->
  exists r,
    getPointListData w params = Returned (Call None (Some (Plain r)))
    /\ Result.apartmentIds r = drawn supercluster z (Finite k) c
    /\ forall id, id ∈ Result.apartmentIds r ->
         Result.clusterLookup r !! id = Some (fst (expand supercluster z (Finite k) c)).
Proof.
  intros z Hsqrt Hidx Hmax Hk Hcl Hne.
  assert (Hm : effectiveMaxCount (maxCount params) = Finite k).
  { rewrite Hmax. simpl. destruct (k =? 0) eqn:E; [lia | done]. }
  destruct (snd (expand supercluster z (Finite k) c)) as [| f0 fs] eqn:E; [done |].
  set (g := mkClusterData (fst (expand supercluster z (Finite k) c))
              (feat_coordinates f0) (drawn supercluster z (Finite k) c) None).
  assert (Hg : gather supercluster z (effectiveMaxCount (maxCount params))
                 (getClusters supercluster (bounds params) z) 0 = Some [g]).
  { rewrite Hm, Hcl, gather_cons, E. cbn zeta. cbn [reached].
    replace (k <=? Z.of_nat (0 + length (f0 :: fs))) with true; [done |].
    symmetry. apply Z.leb_le. lia. }
  assert (Hr : exists order,
             order ≡ₚ distanceSort [g]
                        (default (getBboxArrCenter (bounds params)) (center params))
             /\ getPointListData w params
                = Returned (Call None (Some (Plain (resultOf order))))).
  { destruct (travellingSalesmanApprox params) eqn:Et.
    - by apply getPointListData_toured with supercluster.
    - eexists. split; [reflexivity |].
      by apply getPointListData_sorted with supercluster. }
  destruct Hr as (order & HP & Hr).
  apply Permutation_singleton_r in HP. subst order.
  eexists. split; [exact Hr |]. cbn. rewrite app_nil_r. split; [done |].
  intros id Hid. rewrite push_fold_lookup. by rewrite decide_True.
Qed.

(** A cap of [-1] on the demonstration index: the loose point alone. *)
Lemma negative_cap_keeps_first_group_witness :
  exists r,
    getPointListData (M := Demo.math) Demo.worker (Demo.query "points" (Some (-1)) true)
    = Returned (Call None (Some (Plain r)))
    /\ Result.apartmentIds r = [1]
    /\ forall id, id ∈ Result.apartmentIds r -> Result.clusterLookup r !! id = Some 1.
Proof.
  apply (negative_cap_keeps_first_group (M := Demo.math) Demo.worker
           (Demo.query "points" (Some (-1)) true) Demo.index (-1)
           (Demo.leaf 1 0 0) [Demo.aggregate 100 1 1]).
  - exact sqrt_down_nonneg.
  - vm_compute. reflexivity.
  - reflexivity.
  - lia.
  - vm_compute. reflexivity.
  - vm_compute. discriminate.
Defined.

(** ** Ingest and removal *)

(** The worker after an ingest that built [index] for its source. *)
Lemma loadData_cases {host : Host} (w : Worker) (params : LoadGeoJSONParameters) :
  (loadData w params = (w, Call None None)
   /\ (loadGeoJSON params = Call None None
       \/ exists v, loadGeoJSON params = Call None (Some v) /\ falsy v = true))
  \/ (exists err, loadData w params = (w, Call (Some err) None))
  \/ (exists d index,
        loadGeoJSON params = Call None (Some (VObject d))
        /\ buildIndex params (Rewind.rewind d true) = inr index
        /\ loadData w params
           = (mkWorker (<[load_source params := index]> (_geoJSONIndexes w))
                       (<[load_source params := ∅]> (loaded w)),
              Call None None)).
Proof.
  unfold loadData.
  destruct (loadGeoJSON params) as [[err |] [v |]].
  - right; left. by eexists.
  - right; left. by eexists.
  - destruct (falsy v) eqn:Ef.
    + left. split; [done |]. right. by exists v.
    + destruct v as [| b | q | s | d]; cbn [as_object].
      * discriminate Ef.
      * right; left. by eexists.
      * right; left. by eexists.
      * right; left. by eexists.
      * destruct (buildIndex params (Rewind.rewind d true)) as [err | index] eqn:Eb.
        -- right; left. by eexists.
        -- do 2 right. by exists d, index.
  - left. split; [done | by left].
Qed.

(** X15.  [loadData] changes the worker by building an index and in no
    other way: when the callback receives an error the worker is what it
    was, and when the worker has changed, the data was an object, its
    index was built, and the index of the source and its markers of loaded
    tiles are the only entries written. *)
Theorem loadData_changes_by_building {host : Host} (w : Worker)
    (params : LoadGeoJSONParameters) :
  (forall err data, snd (loadData w params) = Call (Some err) data ->
                    fst (loadData w params) = w)
  /\ (fst (loadData w params) = w
      \/ exists d index,
           loadGeoJSON params = Call None (Some (VObject d))
           /\ buildIndex params (Rewind.rewind d true) = inr index
           /\ loadData w params
              = (mkWorker (<[load_source params := index]> (_geoJSONIndexes w))
                          (<[load_source params := ∅]> (loaded w)),
                 Call None None)).
Proof.
  destruct (loadData_cases w params)
    as [[E _] | [[e E] | (d & index & Hl & Hb & E)]]; rewrite E; simpl.
  - split; [done | by left].
  - split; [done | by left].
  - split; [done |]. right. by exists d, index.
Qed.

(** A bare point, which the tile builder of the demonstration host refuses. *)
Lemma loadData_changes_by_building_witness :
  fst (loadData (host := Demo.host) Demo.served
         (Demo.ingest "shapes" None (Some (LString "point")) false))
  = Demo.served.
Proof.
  apply (proj1 (loadData_changes_by_building (host := Demo.host) Demo.served
                  (Demo.ingest "shapes" None (Some (LString "point")) false))
           "unsupported" None).
  vm_compute. reflexivity.
Defined.

(** X16.  A callback without an error does not tell that something was
    ingested: when the text parses to a falsy value ([null], [false], [0]
    or the empty string), [loadData] calls back without an error and the
    worker is what it was. *)
Theorem falsy_data_is_dropped {host : Host} (w : Worker)
    (params : LoadGeoJSONParameters) (s : string) (v : JSValue) :
  request params = None ->
  data params = Some (LString s) ->
  JSON_parse s = inr v ->
  falsy v = true ->
  loadData w params = (w, Call None None).
Proof.
  intros Hreq Hdata Hparse Hf. unfold loadData, loadGeoJSON.
  by rewrite Hreq, Hdata, Hparse, Hf.
Qed.

(** The text [null], handed to a worker that serves the tile source
    ["shapes"]. *)
Lemma falsy_data_is_dropped_witness :
  loadData (host := DemoTiles.reader) Demo.served
    (Demo.ingest "shapes" None (Some (LString "null")) false)
  = (Demo.served, Call None None).
Proof.
  apply (falsy_data_is_dropped (host := DemoTiles.reader) Demo.served
           (Demo.ingest "shapes" None (Some (LString "null")) false) "null" VNull);
    reflexivity.
Defined.

(** ** Queries after an ingest or a removal *)

Section Answers.
Context {M : MathLib} {T : TileHost}.

(** What a source answers is read off its two entries in the worker. *)
Lemma answers_of_entries (w w' : Worker) (src : string) :
  _geoJSONIndexes w' !! src = _geoJSONIndexes w !! src ->
  loaded w' !! src = loaded w !! src ->
  (forall q, source q = src -> getPointListData w' q = getPointListData w q)
  /\ (forall q, source q = src ->
        GeoSpiral.getPointListData w' q = GeoSpiral.getPointListData w q)
  /\ (forall t, tile_source t = src -> reloadTile w' t = reloadTile w t)
  /\ (forall t, tile_source (tile t) = src -> loadGeoJSONTile w' t = loadGeoJSONTile w t).
Proof.
  intros Hi Hl. split_and!.
  - intros q <-. unfold getPointListData. by rewrite Hi.
  - intros q <-. unfold GeoSpiral.getPointListData. by rewrite Hi.
  - intros t <-. unfold reloadTile. by rewrite Hl.
  - intros t <-. unfold loadGeoJSONTile. by rewrite Hi.
Qed.

End Answers.

(** X17.  After an ingest that built its index, what the source answers
    does not depend on what the worker held before: two workers that
    ingest the same parameters answer every point list, every reload and
    every tile of that source alike. *)
Theorem ingest_replaces {host : Host} {M : MathLib} {T : TileHost} (w1 w2 : Worker)
    (params : LoadGeoJSONParameters) (d : GeoJSON) (index : GeoJSONIndex) :
  loadGeoJSON params = Call None (Some (VObject d)) ->
  buildIndex params (Rewind.rewind d true) = inr index ->
  (forall q, source q = load_source params ->
     getPointListData (fst (loadData w1 params)) q
     = getPointListData (fst (loadData w2 params)) q)
  /\ (forall q, source q = load_source params ->
        GeoSpiral.getPointListData (fst (loadData w1 params)) q
        = GeoSpiral.getPointListData (fst (loadData w2 params)) q)
  /\ (forall t, tile_source t = load_source params ->
        reloadTile (fst (loadData w1 params)) t = reloadTile (fst (loadData w2 params)) t)
  /\ (forall t, tile_source (tile t) = load_source params ->
        loadGeoJSONTile (fst (loadData w1 params)) t
        = loadGeoJSONTile (fst (loadData w2 params)) t).
Proof.
  intros Hl Hb. apply answers_of_entries.
  - unfold loadData. rewrite Hl. simpl. rewrite Hb. simpl.
    by rewrite !lookup_insert_eq.
  - unfold loadData. rewrite Hl. simpl. rewrite Hb. simpl.
    by rewrite !lookup_insert_eq.
Qed.

(** The square, ingested by a fresh worker and by one that served tiles. *)
Lemma ingest_replaces_witness :
  reloadTile (fst (loadData (host := Demo.host) worker0
                     (Demo.ingest "shapes" None (Some (LString "square")) false)))
    (mkTileParams "shapes" 7)
  = reloadTile (fst (loadData (host := Demo.host) Demo.served
                       (Demo.ingest "shapes" None (Some (LString "square")) false)))
      (mkTileParams "shapes" 7).
Proof.
  apply (ingest_replaces (host := Demo.host) (M := Demo.math) (T := DemoTiles.host)
           worker0 Demo.served
           (Demo.ingest "shapes" None (Some (LString "square")) false)
           Demo.square (GeoJSONVT Demo.tiles)).
  - vm_compute. reflexivity.
  - vm_compute. reflexivity.
  - reflexivity.
Defined.

(** X18.  [loadData] and [removeSource] touch one source: whatever they
    do, every other source answers its point lists, reloads and tiles as
    before. *)
Theorem other_sources_untouched {host : Host} {M : MathLib} {T : TileHost} (w : Worker)
    (params : LoadGeoJSONParameters) (removed src : string) :
  src <> load_source params ->
  src <> removed ->
  let w' := fst (removeSource (fst (loadData w params)) removed) in
  (forall q, source q = src -> getPointListData w' q = getPointListData w q)
  /\ (forall q, source q = src ->
        GeoSpiral.getPointListData w' q = GeoSpiral.getPointListData w q)
  /\ (forall t, tile_source t = src -> reloadTile w' t = reloadTile w t)
  /\ (forall t, tile_source (tile t) = src -> loadGeoJSONTile w' t = loadGeoJSONTile w t).
Proof.
  intros Hsrc Hrem w'. apply answers_of_entries; subst w'; simpl.
  - rewrite lookup_delete_ne by done.
    destruct (loadData_cases w params)
      as [[E _] | [[e E] | (d & index & _ & _ & E)]]; rewrite E; simpl; [done .. |].
    by rewrite lookup_insert_ne.
  - destruct (loadData_cases w params)
      as [[E _] | [[e E] | (d & index & _ & _ & E)]]; rewrite E; simpl; [done .. |].
    by rewrite lookup_insert_ne.
Qed.

(** The points of the demonstration worker, while ["shapes"] is ingested
    anew and ["scattered"] is removed. *)
Lemma other_sources_untouched_witness :
  getPointListData (M := Demo.math)
    (fst (removeSource
            (fst (loadData (host := Demo.host) Demo.worker
                    (Demo.ingest "shapes" None (Some (LString "square")) false)))
            "scattered")) (Demo.query "points" (Some 2) true)
  = getPointListData (M := Demo.math) Demo.worker (Demo.query "points" (Some 2) true).
Proof.
  apply (other_sources_untouched (host := Demo.host) (M := Demo.math)
           (T := DemoTiles.host) Demo.worker
           (Demo.ingest "shapes" None (Some (LString "square")) false)
           "scattered" "points").
  - discriminate.
  - discriminate.
  - reflexivity.
Defined.

(** X19.  [removeSource] forgets the index of a source and nothing else:
    the source is unknown afterwards, a second removal and the removal of
    an unknown source leave the worker as it is, and the markers of loaded
    tiles are never touched. *)
Theorem removeSource_forgets (w : Worker) (src : string) :
  _geoJSONIndexes (fst (removeSource w src)) !! src = None
  /\ loaded (fst (removeSource w src)) = loaded w
  /\ removeSource (fst (removeSource w src)) src = removeSource w src
  /\ (_geoJSONIndexes w !! src = None -> removeSource w src = (w, Call None None)).
Proof.
  unfold removeSource. simpl. split_and!.
  - apply lookup_delete_eq.
  - done.
  - f_equal. f_equal. apply delete_delete_eq.
  - intros Hnone. rewrite delete_id by done. by destruct w.
Qed.

(** A source the demonstration worker never had. *)
Lemma removeSource_forgets_witness :
  removeSource Demo.worker "nowhere" = (Demo.worker, Call None None).
Proof.
  apply (removeSource_forgets Demo.worker "nowhere"). vm_compute. reflexivity.
Defined.

(** ** Serving a tile *)

(** X20.  [loadGeoJSONTile] never reports an error, and it answers with
    no tile exactly when the source has no index or its index has no tile
    at the clamped zoom; so it does for a source that was removed. *)
Theorem loadGeoJSONTile_answers {T : TileHost} (w : Worker) (params : LoadTileParameters) :
  let z := Z.min (coord_z (coord params)) (maxZoom params) in
  (exists served, loadGeoJSONTile w params = Call None served)
  /\ (loadGeoJSONTile w params = Call None None
      <-> _geoJSONIndexes w !! tile_source (tile params) = None
          \/ exists index,
               _geoJSONIndexes w !! tile_source (tile params) = Some index
               /\ index_getTile index z (coord_x (coord params)) (coord_y (coord params))
                  = None)
  /\ loadGeoJSONTile (fst (removeSource w (tile_source (tile params)))) params
     = Call None None.
Proof.
  intros z. unfold loadGeoJSONTile. fold z. split_and!.
  - destruct (_geoJSONIndexes w !! _) as [index |]; [| by eexists].
    destruct (index_getTile index z _ _); by eexists.
  - destruct (_geoJSONIndexes w !! _) as [index |]; [| split; [by left | done]].
    destruct (index_getTile index z _ _) as [t |] eqn:E.
    + split; [done |]. intros [? | (i & [= <-] & Hi)]; [done |]. congruence.
    + split; [| done]. intros _. right. by exists index.
  - simpl. by rewrite lookup_delete_eq.
Qed.

(** A tile asked for beyond [maxZoom] is the tile at [maxZoom]: the
    answer to a request at a zoom of [maxZoom] or more is the answer to the
    same request at [maxZoom]. *)
Theorem loadGeoJSONTile_overzoom {T : TileHost} (w : Worker) (t : WorkerTileParameters)
    (z x y mz : Z) :
  mz <= z ->
  loadGeoJSONTile w (mkLoadTileParams t (mkCoord z x y) mz)
  = loadGeoJSONTile w (mkLoadTileParams t (mkCoord mz x y) mz).
Proof.
  intros Hz. unfold loadGeoJSONTile. simpl.
  by rewrite Z.min_r, Z.min_id by done.
Qed.

(** Zoom [5] of a pyramid that ends at zoom [0]. *)
Lemma loadGeoJSONTile_overzoom_witness :
  loadGeoJSONTile (T := DemoTiles.host) DemoTiles.worker (DemoTiles.ask "shapes" 5 0 0 0)
  = loadGeoJSONTile (T := DemoTiles.host) DemoTiles.worker (DemoTiles.ask "shapes" 0 0 0 0).
Proof.
  apply (loadGeoJSONTile_overzoom (T := DemoTiles.host) DemoTiles.worker
           (mkTileParams "shapes" 7) 5 0 0 0).
  lia.
Defined.

(** X21.  The [rawData] of a served tile are the bytes the encoder wrote
    for the wrapped features of the tile, and only those: when the encoder
    returns a window into a larger buffer, the bytes are copied out. *)
Theorem loadGeoJSONTile_rawData {T : TileHost} (w : Worker) (params : LoadTileParameters)
    (served : LoadedTile) :
  loadGeoJSONTile w params = Call None (Some served) ->
  rawData served = viewed (vtpbf (vectorTile served))
  /\ exists index geoJSONTile,
       _geoJSONIndexes w !! tile_source (tile params) = Some index
       /\ index_getTile index (Z.min (coord_z (coord params)) (maxZoom params))
            (coord_x (coord params)) (coord_y (coord params)) = Some geoJSONTile
       /\ wrapped (vectorTile served) = tile_features geoJSONTile.
Proof.
  unfold loadGeoJSONTile.
  destruct (_geoJSONIndexes w !! _) as [index |]; [| done].
  destruct (index_getTile index _ _ _) as [t |] eqn:E; [| done].
  intros [= <-]. cbn [rawData vectorTile wrapped]. split; [| by exists index, t].
  set (pbf := vtpbf _). unfold windowed.
  destruct (byteOffset pbf =? 0)%nat eqn:Eo; simpl.
  - destruct (byteLength pbf =? length (buffer pbf))%nat eqn:El; simpl; [| done].
    apply Nat.eqb_eq in Eo, El. unfold viewed. rewrite Eo, El. simpl.
    by rewrite take_ge.
  - done.
Qed.

(** The one tile of the demonstration pyramid: three bytes out of six. *)
Lemma loadGeoJSONTile_rawData_witness :
  [Byte.x1a; Byte.x02; Byte.x78]
  = viewed (vtpbf (TileHost := DemoTiles.host)
              (mkGeoJSONWrapper [mkGeoFeature (Point (0, 0)%Q) (Some 1) []])).
Proof.
  assert (Hr : loadGeoJSONTile (T := DemoTiles.host) DemoTiles.worker
                 (DemoTiles.ask "shapes" 0 0 0 0)
               = Call None (Some (mkLoadedTile
                   (mkGeoJSONWrapper [mkGeoFeature (Point (0, 0)%Q) (Some 1) []])
                   [Byte.x1a; Byte.x02; Byte.x78])))
    by (vm_compute; reflexivity).
  exact (proj1 (loadGeoJSONTile_rawData (T := DemoTiles.host) DemoTiles.worker
                  (DemoTiles.ask "shapes" 0 0 0 0) _ Hr)).
Defined.

(** ** The centre and the tour *)

(** X22.  The centre handed to [TravellingSalesmanApproximation] is
    stored and never read again: the path of [solve()] is the same for
    every centre, given or not. *)
Theorem tour_ignores_center {M : MathLib} (pts : list TSA.point)
    (c c' : option TSA.point) :
  TSA.solve (TSA.create pts c) = TSA.solve (TSA.create pts c').
Proof.
  unfold TSA.create. destruct (TSA.normalizePoints pts) as [[[b h] w] pts'].
  reflexivity.
Qed.






